(** * ThreadSafeList2D: a mutex-guarded doubly linked list

    A shallow embedding of [ThreadSafeList2D.h].  The list lives in a heap of
    nodes addressed by 64-bit pointers; every member function is a
    computation in a small state-and-exception monad over the object's
    fields and that heap.  Dereferencing a null or dangling pointer is
    undefined behaviour and is kept as a separate outcome, so that the
    theorems below also show that the code never does it on a well-formed
    list. *)

From Stdlib Require Import ZArith Lia.
From stdpp Require Import gmap list strings.

Local Open Scope Z_scope.

Module ThreadSafeList2D.

(** ** Machine parameters *)

(** Pointers and [size_t] are 64 bits wide. *)
Definition SIZE_MAX : Z := 2 ^ 64 - 1.

Definition nullptr : Z := 0.

(** [size_t] arithmetic is modulo [SIZE_MAX + 1]. *)
Definition wrap (z : Z) : Z := z mod (SIZE_MAX + 1).

(** [struct ElementNotFound] and [struct AcceessViolation]. *)
Inductive exn : Type :=
| ElementNotFound
| AcceessViolation.

(** [what()] of either exception. *)
Definition what (e : exn) : string :=
  match e with
  | ElementNotFound => "Element is not found"%string
  | AcceessViolation => "Access violation"%string
  end.

Section Elem.

(** The element type [T]; [operator==] on it is a decidable equality. *)
Context {T : Type} `{EqDecision T}.

(** ** Data model *)

(** [struct Node { Node* prev; T value; Node* next; }] *)
Record Node : Type := mkNode {
  prev : Z;
  value : T;
  next : Z
}.

(** The private members of the class, together with the free store holding
    its nodes.  [mutex_] is [true] while the mutex is owned. *)
Record List2D : Type := mkList {
  mem : gmap Z Node;
  head : Z;
  tail : Z;
  size_ : Z;
  mutex_ : bool
}.

(** [ThreadSafeList2D() noexcept : head(nullptr), tail(nullptr), size_(0)] *)
Definition init : List2D := mkList ∅ nullptr nullptr 0 false.

(** ** The monad of member functions *)

Inductive outcome (A : Type) : Type :=
| Returned (a : A) (s : List2D)   (* normal return *)
| Thrown (e : exn) (s : List2D)   (* an exception leaves the function *)
| Undefined                       (* null or dangling pointer dereference *)
| Blocked                         (* the caller waits for [mutex_] *)
| OutOfFuel.                      (* a loop ran longer than its fuel *)

Arguments Returned {A} a s.
Arguments Thrown {A} e s.
Arguments Undefined {A}.
Arguments Blocked {A}.
Arguments OutOfFuel {A}.

Definition M (A : Type) : Type := List2D -> outcome A.

Definition ret {A} (a : A) : M A := fun s => Returned a s.

Definition bind {A B} (m : M A) (k : A -> M B) : M B :=
  fun s =>
    match m s with
    | Returned a s' => k a s'
    | Thrown e s' => Thrown e s'
    | Undefined => Undefined
    | Blocked => Blocked
    | OutOfFuel => OutOfFuel
    end.

Definition throw {A} (e : exn) : M A := fun s => Thrown e s.

Definition out_of_fuel {A} : M A := fun _ => OutOfFuel.

Notation "x <- m ;; k" := (bind m (fun x => k))
  (at level 62, m at next level, right associativity).
Notation "m ;;; k" := (bind m (fun _ => k))
  (at level 62, right associativity).

(** [try { ... } catch (...)]: the exception, if any, becomes a value. *)
Definition try_catch {A} (m : M A) : M (A + exn) :=
  fun s =>
    match m s with
    | Returned a s' => Returned (inl a) s'
    | Thrown e s' => Returned (inr e) s'
    | Undefined => Undefined
    | Blocked => Blocked
    | OutOfFuel => OutOfFuel
    end.

(** Reads and writes of the fields. *)
Definition get_head : M Z := fun s => Returned (head s) s.
Definition get_tail : M Z := fun s => Returned (tail s) s.
Definition get_size : M Z := fun s => Returned (size_ s) s.

Definition set_head (p : Z) : M unit :=
  fun s => Returned tt (mkList (mem s) p (tail s) (size_ s) (mutex_ s)).
Definition set_tail (p : Z) : M unit :=
  fun s => Returned tt (mkList (mem s) (head s) p (size_ s) (mutex_ s)).
Definition set_size (n : Z) : M unit :=
  fun s => Returned tt (mkList (mem s) (head s) (tail s) n (mutex_ s)).

(** [p->...]: the node a pointer designates, when it designates one. *)
Definition deref (p : Z) (s : List2D) : option Node :=
  if p =? nullptr then None else mem s !! p.

Definition load (p : Z) : M Node :=
  fun s => match deref p s with
           | Some nd => Returned nd s
           | None => Undefined
           end.

Definition store (p : Z) (nd : Node) : M unit :=
  fun s => match deref p s with
           | Some _ =>
               Returned tt (mkList (<[p := nd]> (mem s)) (head s) (tail s)
                                   (size_ s) (mutex_ s))
           | None => Undefined
           end.

Definition load_prev (p : Z) : M Z := nd <- load p ;; ret (prev nd).
Definition load_value (p : Z) : M T := nd <- load p ;; ret (value nd).
Definition load_next (p : Z) : M Z := nd <- load p ;; ret (next nd).

Definition store_prev (p q : Z) : M unit :=
  nd <- load p ;; store p (mkNode q (value nd) (next nd)).
Definition store_next (p q : Z) : M unit :=
  nd <- load p ;; store p (mkNode (prev nd) (value nd) q).

(** [new Node(...)]: the allocator hands out the address [a]; the node is
    constructed there. *)
Definition new_Node (a : Z) (nd : Node) : M Z :=
  fun s => Returned a (mkList (<[a := nd]> (mem s)) (head s) (tail s)
                              (size_ s) (mutex_ s)).

(** [delete p] *)
Definition delete_Node (p : Z) : M unit :=
  fun s => match deref p s with
           | Some _ =>
               Returned tt (mkList (delete p (mem s)) (head s) (tail s)
                                   (size_ s) (mutex_ s))
           | None => Undefined
           end.

(** [std::lock_guard<std::mutex> lock(mutex_);] around a function body: the
    mutex is taken on entry and given back on every way out, a return or an
    exception. *)
Definition unlock (s : List2D) : List2D :=
  mkList (mem s) (head s) (tail s) (size_ s) false.
Definition lock (s : List2D) : List2D :=
  mkList (mem s) (head s) (tail s) (size_ s) true.

Definition lock_guard {A} (body : M A) : M A :=
  fun s =>
    if mutex_ s then Blocked
    else match body (lock s) with
         | Returned a s' => Returned a (unlock s')
         | Thrown e s' => Thrown e (unlock s')
         | Undefined => Undefined
         | Blocked => Blocked
         | OutOfFuel => OutOfFuel
         end.

(** ** Member functions *)

(** [T front()] *)
Definition front : M T :=
  lock_guard (
    h <- get_head ;;
    if h =? nullptr then throw AcceessViolation
    else load_value h).

(** [T back()] *)
Definition back : M T :=
  lock_guard (
    t <- get_tail ;;
    if t =? nullptr then throw AcceessViolation
    else load_value t).

(** [size_t size() noexcept] *)
Definition size : M Z :=
  lock_guard get_size.

(** [bool empty() noexcept] *)
Definition empty : M bool :=
  lock_guard (n <- get_size ;; ret (n =? 0)).

(** [void push_front(T val) noexcept]; [a] is the address [new] returns. *)
Definition push_front (a : Z) (val : T) : M unit :=
  lock_guard (
    node <- new_Node a (mkNode nullptr val nullptr) ;;
    tmp <- get_head ;;
    h <- get_head ;;
    (if h =? nullptr then
       (* head = tail = node; *)
       set_tail node ;;; set_head node
     else
       store_next node h ;;;          (* node->next = head; *)
       set_head node ;;;              (* head = node; *)
       nx <- load_next node ;;
       store_prev nx node) ;;;        (* node->next->prev = node; *)
    n <- get_size ;;
    set_size (wrap (n + 1))).

(** [void push_back(T val) noexcept]; [a] is the address [new] returns. *)
Definition push_back (a : Z) (val : T) : M unit :=
  lock_guard (
    t <- get_tail ;;
    node <- new_Node a (mkNode t val nullptr) ;;
    h <- get_head ;;
    (if h =? nullptr then
       set_tail node ;;; set_head node
     else
       t <- get_tail ;;
       store_next t node ;;;          (* tail->next = node; *)
       set_tail node) ;;;             (* tail = node; *)
    n <- get_size ;;
    set_size (wrap (n + 1))).

(** The loop of [Node* find(T val) noexcept], from the node [node] on. *)
Fixpoint find_loop (fuel : nat) (val : T) (node : Z) : M Z :=
  match fuel with
  | O => out_of_fuel
  | S fuel' =>
      if node =? nullptr then ret nullptr
      else
        v <- load_value node ;;
        if bool_decide (v = val) then ret node
        else nx <- load_next node ;; find_loop fuel' val nx
  end.

(** [Node* find(T val) noexcept]: private, takes no lock. *)
Definition find (fuel : nat) (val : T) : M Z :=
  node <- get_head ;;
  find_loop fuel val node.

(** [void remove(T val)] *)
Definition remove (fuel : nat) (val : T) : M unit :=
  lock_guard (
    found_node <- find fuel val ;;
    tmp <- get_head ;;
    if negb (found_node =? nullptr) then
      h <- get_head ;;
      (if found_node =? h then
         nx <- load_next h ;;
         set_head nx ;;;                      (* head = head->next; *)
         h' <- get_head ;;
         (if negb (h' =? nullptr) then store_prev h' nullptr
          else set_tail nullptr) ;;;
         delete_Node found_node
       else
         t <- get_tail ;;
         if found_node =? t then
           pv <- load_prev t ;;
           set_tail pv ;;;                    (* tail = tail->prev; *)
           t' <- get_tail ;;
           (if negb (t' =? nullptr) then store_next t' nullptr
            else ret tt) ;;;
           delete_Node found_node
         else
           prev_node <- load_prev found_node ;;
           next_node <- load_next found_node ;;
           store_next prev_node next_node ;;;
           store_prev next_node prev_node ;;;
           delete_Node found_node) ;;;
      n <- get_size ;;
      set_size (wrap (n - 1))                 (* size_--; *)
    else throw ElementNotFound).

(** The loop of [get_fwd]; [result] is the vector built so far. *)
Fixpoint get_fwd_loop (fuel : nat) (node : Z) (result : list T)
  : M (list T) :=
  match fuel with
  | O => out_of_fuel
  | S fuel' =>
      if node =? nullptr then ret result
      else
        v <- load_value node ;;
        nx <- load_next node ;;
        get_fwd_loop fuel' nx (result ++ [v])
  end.

(** [std::vector<T> get_fwd()] *)
Definition get_fwd (fuel : nat) : M (list T) :=
  lock_guard (
    node <- get_head ;;
    get_fwd_loop fuel node []).

(** The loop of [get_bwd]. *)
Fixpoint get_bwd_loop (fuel : nat) (node : Z) (result : list T)
  : M (list T) :=
  match fuel with
  | O => out_of_fuel
  | S fuel' =>
      if node =? nullptr then ret result
      else
        v <- load_value node ;;
        pv <- load_prev node ;;
        get_bwd_loop fuel' pv (result ++ [v])
  end.

(** [std::vector<T> get_bwd()] *)
Definition get_bwd (fuel : nat) : M (list T) :=
  lock_guard (
    node <- get_tail ;;
    get_bwd_loop fuel node []).

(** ** The public interface as one step function *)

(** A call of a public member function.  For the two pushes [a] is the address
    the allocator returns for the new node. *)
Inductive call : Type :=
| PushFront (a : Z) (val : T)
| PushBack (a : Z) (val : T)
| Front
| Back
| Size
| IsEmpty
| Remove (val : T)
| GetFwd
| GetBwd.

Inductive retval : Type :=
| RVoid
| RValue (v : T)
| RSize (n : Z)
| RBool (b : bool)
| RVector (l : list T).

Definition run (fuel : nat) (c : call) : M retval :=
  match c with
  | PushFront a val => push_front a val ;;; ret RVoid
  | PushBack a val => push_back a val ;;; ret RVoid
  | Front => v <- front ;; ret (RValue v)
  | Back => v <- back ;; ret (RValue v)
  | Size => n <- size ;; ret (RSize n)
  | IsEmpty => b <- empty ;; ret (RBool b)
  | Remove val => remove fuel val ;;; ret RVoid
  | GetFwd => l <- get_fwd fuel ;; ret (RVector l)
  | GetBwd => l <- get_bwd fuel ;; ret (RVector l)
  end.

(** The object as the caller finds it once the call is over. *)
Definition final_state {A} (o : outcome A) : option List2D :=
  match o with
  | Returned _ s => Some s
  | Thrown _ s => Some s
  | _ => None
  end.

Definition returned {A} (o : outcome A) : bool :=
  match o with
  | Returned _ _ => true
  | _ => false
  end.

Definition is_push (c : call) : bool :=
  match c with
  | PushFront _ _ | PushBack _ _ => true
  | _ => false
  end.

Definition is_remove (c : call) : bool :=
  match c with
  | Remove _ => true
  | _ => false
  end.

(** What [new] may return: a non-null 64-bit address at which no node
    lives. *)
Definition fresh_ptr (s : List2D) (a : Z) : Prop :=
  0 < a <= SIZE_MAX /\ mem s !! a = None.

Definition may_call (s : List2D) (c : call) : Prop :=
  match c with
  | PushFront a _ | PushBack a _ => fresh_ptr s a
  | _ => True
  end.

(** States a client can produce: start from the constructor and call public
    member functions, each call running to its return or its exception. *)
Inductive reachable : List2D -> Prop :=
| reachable_init : reachable init
| reachable_call s c fuel s' :
    reachable s ->
    may_call s c ->
    final_state (run fuel c s) = Some s' ->
    reachable s'.

(** ** Well-formed lists *)

(** A list is described by its cells front to back: the address of each node
    and the value it stores. *)
Definition first_ptr (cs : list (Z * T)) (d : Z) : Z :=
  match cs with
  | [] => d
  | c :: _ => c.1
  end.

Fixpoint last_ptr (cs : list (Z * T)) (d : Z) : Z :=
  match cs with
  | [] => d
  | c :: rest => last_ptr rest c.1
  end.

(** [dseg h pp cs qn]: in [h] the cells [cs] are linked into a segment whose
    first node has [pp] as [prev] and whose last node has [qn] as [next]. *)
Fixpoint dseg (h : gmap Z Node) (pp : Z) (cs : list (Z * T)) (qn : Z)
  : Prop :=
  match cs with
  | [] => True
  | c :: rest =>
      h !! c.1 = Some (mkNode pp c.2 (first_ptr rest qn)) /\
      dseg h c.1 rest qn
  end.

(** The object [s] is the list with cells [cs], and no call is in flight. *)
Record Repr (s : List2D) (cs : list (Z * T)) : Prop := mkRepr {
  repr_unlocked : mutex_ s = false;
  repr_head : head s = first_ptr cs nullptr;
  repr_tail : tail s = last_ptr cs nullptr;
  repr_size : size_ s = Z.of_nat (length cs);
  repr_links : dseg (mem s) nullptr cs nullptr;
  repr_nodup : NoDup cs.*1;
  repr_range : forall p, p ∈ cs.*1 -> 0 < p <= SIZE_MAX;
  repr_owned : dom (mem s) = list_to_set cs.*1
}.

(** ** The structural invariant, on the pointers

    [walk h n p] follows [next] references [n] times from [p]. *)
Fixpoint walk (h : gmap Z Node) (n : nat) (p : Z) : option Z :=
  match n with
  | O => Some p
  | S n' => match h !! p with
            | Some nd => walk h n' (next nd)
            | None => None
            end
  end.

(** [head] is null iff [tail] is null iff the count is zero. *)
Definition ends_agree (s : List2D) : Prop :=
  (head s = nullptr <-> tail s = nullptr) /\
  (tail s = nullptr <-> size_ s = 0).

(** From [head], [size_ - 1] steps along [next] end in [tail]; the [size_]
    nodes met on the way are pairwise distinct, are all the nodes there
    are, and [next] of the last one is null. *)
Definition chain_ok (s : List2D) : Prop :=
  0 <= size_ s /\
  (size_ s <> 0 ->
   walk (mem s) (Z.to_nat (size_ s - 1)) (head s) = Some (tail s) /\
   walk (mem s) (Z.to_nat (size_ s)) (head s) = Some nullptr) /\
  (forall i j p,
     (i < j)%nat -> Z.of_nat j < size_ s ->
     walk (mem s) i (head s) = Some p ->
     walk (mem s) j (head s) <> Some p) /\
  (forall p, is_Some (mem s !! p) ->
     exists i, Z.of_nat i < size_ s /\ walk (mem s) i (head s) = Some p).

(** Every node but the first has its predecessor in [prev] (and the first
    has null there); [next] of a node is its successor by the definition of
    [walk]. *)
Definition back_links_ok (s : List2D) : Prop :=
  (forall nd, size_ s <> 0 -> mem s !! head s = Some nd -> prev nd = nullptr) /\
  (forall i p q nd,
     Z.of_nat (S i) < size_ s ->
     walk (mem s) i (head s) = Some p ->
     walk (mem s) (S i) (head s) = Some q ->
     mem s !! q = Some nd ->
     prev nd = p).

(** Every node lives at a non-null 64-bit address. *)
Definition valid_nodes (s : List2D) : Prop :=
  forall p, is_Some (mem s !! p) -> 0 < p <= SIZE_MAX.

(** The invariant that holds before and after every public call. *)
Record Inv (s : List2D) : Prop := mkInv {
  inv_unlocked : mutex_ s = false;
  inv_valid : valid_nodes s;
  inv_ends : ends_agree s;
  inv_chain : chain_ok s;
  inv_back : back_links_ok s
}.

(** The cells met on the first [n] steps along [next] from [p]. *)
Fixpoint cells_from (h : gmap Z Node) (n : nat) (p : Z) : list (Z * T) :=
  match n with
  | O => []
  | S n' => match h !! p with
            | Some nd => (p, value nd) :: cells_from h n' (next nd)
            | None => []
            end
  end.

(** The cells of a list, read off the object. *)
Definition cells_of (s : List2D) : list (Z * T) :=
  cells_from (mem s) (Z.to_nat (size_ s)) (head s).

(** ** The list as a sequence of cells

    What the specification says each call does, on the sequence of cells
    alone; the member functions above are compared with it below. *)

(** Drop the first cell, front to back, that stores [val]. *)
Fixpoint remove_first (val : T) (cs : list (Z * T)) : option (list (Z * T)) :=
  match cs with
  | [] => None
  | c :: rest =>
      if bool_decide (c.2 = val) then Some rest
      else match remove_first val rest with
           | Some rest' => Some (c :: rest')
           | None => None
           end
  end.

(** The value returned or the error signalled by a call, and the sequence
    it leaves. *)
Definition model_step (c : call) (cs : list (Z * T))
  : (retval + exn) * list (Z * T) :=
  match c with
  | PushFront a val => (inl RVoid, (a, val) :: cs)
  | PushBack a val => (inl RVoid, cs ++ [(a, val)])
  | Front =>
      (match cs with
       | [] => inr AcceessViolation
       | c :: _ => inl (RValue c.2)
       end, cs)
  | Back =>
      (match last cs with
       | None => inr AcceessViolation
       | Some c => inl (RValue c.2)
       end, cs)
  | Size => (inl (RSize (Z.of_nat (length cs))), cs)
  | IsEmpty => (inl (RBool (Z.of_nat (length cs) =? 0)), cs)
  | Remove val =>
      match remove_first val cs with
      | Some cs' => (inl RVoid, cs')
      | None => (inr ElementNotFound, cs)
      end
  | GetFwd => (inl (RVector cs.*2), cs)
  | GetBwd => (inl (RVector (rev cs.*2)), cs)
  end.

Definition to_outcome (r : retval + exn) (s : List2D) : outcome retval :=
  match r with
  | inl v => Returned v s
  | inr e => Thrown e s
  end.

(** ** A serial schedule of pushes

    One [push_back] per pair of an address and a value, one after the
    other. *)
Fixpoint serial_push_back (l : list (Z * T)) : M unit :=
  match l with
  | [] => ret tt
  | c :: l' => push_back c.1 c.2 ;;; serial_push_back l'
  end.

(** ** The destructor *)

(** The loop of [~ThreadSafeList2D()]; [tmp] is the node about to be
    deleted. *)
Fixpoint destructor_loop (fuel : nat) : M unit :=
  match fuel with
  | O => out_of_fuel
  | S fuel' =>
      h <- get_head ;;
      if negb (h =? nullptr) then
        let tmp := h in
        nx <- load_next h ;;
        set_head nx ;;;                 (* head = head->next; *)
        delete_Node tmp ;;;             (* delete tmp; *)
        destructor_loop fuel'
      else ret tt
  end.

(** [~ThreadSafeList2D()]: no lock is taken. *)
Definition destructor (fuel : nat) : M unit :=
  destructor_loop fuel ;;;
  set_head nullptr.

(** ** More serial schedules *)

(** One [push_front] per pair of an address and a value. *)
Fixpoint serial_push_front (l : list (Z * T)) : M unit :=
  match l with
  | [] => ret tt
  | c :: l' => push_front c.1 c.2 ;;; serial_push_front l'
  end.

(** One [remove] per value. *)
Fixpoint serial_remove (fuel : nat) (vs : list T) : M unit :=
  match vs with
  | [] => ret tt
  | v :: vs' => remove fuel v ;;; serial_remove fuel vs'
  end.

(** The address of the first cell that stores [val], null when there is
    none. *)
Fixpoint first_addr (val : T) (cs : list (Z * T)) : Z :=
  match cs with
  | [] => nullptr
  | c :: rest => if bool_decide (c.2 = val) then c.1 else first_addr val rest
  end.

(** The object with its mutex in state [b]. *)
Definition with_mutex (b : bool) (s : List2D) : List2D :=
  mkList (mem s) (head s) (tail s) (size_ s) b.

(** ** The two logical states *)

Inductive lstate : Type :=
| StEmpty
| StPopulated.

Definition logical (s : List2D) : lstate :=
  if size_ s =? 0 then StEmpty else StPopulated.

(** ** Deciding well-formedness *)

#[global] Instance Node_eq_dec : EqDecision Node.
Proof. solve_decision. Defined.

#[global] Instance dseg_dec h pp cs qn : Decision (dseg h pp cs qn).
Proof.
  revert pp. induction cs as [|c cs IH]; intros pp; simpl; apply _.
Defined.

Definition Repr_conj (s : List2D) (cs : list (Z * T)) : Prop :=
  mutex_ s = false /\
  head s = first_ptr cs nullptr /\
  tail s = last_ptr cs nullptr /\
  size_ s = Z.of_nat (length cs) /\
  dseg (mem s) nullptr cs nullptr /\
  NoDup cs.*1 /\
  Forall (fun p => 0 < p <= SIZE_MAX) cs.*1 /\
  dom (mem s) = list_to_set cs.*1.

#[global] Instance Repr_dec s cs : Decision (Repr s cs).
Proof.
  refine (match decide (Repr_conj s cs) with
          | left Hyes => left _
          | right Hno => right _
          end); unfold Repr_conj in *.
  - destruct Hyes as (? & ? & ? & ? & ? & ? & Hall & ?).
    rewrite Forall_forall in Hall. by constructor.
  - intros []. apply Hno. rewrite Forall_forall. done.
Defined.

End Elem.

Arguments Node T : clear implicits.
Arguments List2D T : clear implicits.
Arguments outcome T A : clear implicits.
Arguments M T A : clear implicits.
Arguments mkNode {T} prev value next.
Arguments mkList {T} mem head tail size_ mutex_.
Arguments Returned {T A} a s.
Arguments Thrown {T A} e s.
Arguments Undefined {T A}.
Arguments Blocked {T A}.
Arguments OutOfFuel {T A}.
Arguments call T : clear implicits.
Arguments retval T : clear implicits.
Arguments wrap z : simpl never.

(** ** Lists of integers used as examples *)

Definition example_one : List2D Z :=
  mkList (list_to_map [(16, mkNode 0 7 0)]) 16 16 1 false.

Definition example_two : List2D Z :=
  mkList (list_to_map [(16, mkNode 0 7 32); (32, mkNode 16 9 0)])
         16 32 2 false.

Definition example_cells : list (Z * Z) := [(16, 7); (32, 9); (48, 9)].

Definition example_list : List2D Z :=
  mkList (list_to_map [(16, mkNode 0 7 32); (32, mkNode 16 9 48);
                       (48, mkNode 32 9 0)])
         16 48 3 false.

(** ** The single-threaded blocks of [test.cpp]

    Each block is run on a fresh list, with nodes at 16, 32, 48 and 64 and
    fuel 8 for the loops, and returns what its assertions look at. *)

Notation "x <- m ;; k" := (bind m (fun x => k))
  (at level 62, m at next level, right associativity).
Notation "m ;;; k" := (bind m (fun _ => k))
  (at level 62, right associativity).

(** "can create list, check emptiness, check exceptions" *)
Definition test_create : M Z (bool * Z * (Z + exn) * (Z + exn)) :=
  e <- empty ;;
  n <- size ;;
  f <- try_catch front ;;
  b <- try_catch back ;;
  ret (e, n, f, b).

(** "can push front and back, adequate size" *)
Definition test_push : M Z (list Z) :=
  push_front 16 1 ;;;
  f1 <- front ;;
  push_front 32 2 ;;;
  f2 <- front ;;
  b1 <- back ;;
  push_back 48 3 ;;;
  b2 <- back ;;
  push_back 64 4 ;;;
  b3 <- back ;;
  n <- size ;;
  ret [f1; f2; b1; b2; b3; n].

(** "remove unknown element exception, store connection (next/prev)
    correctly, can remove successfully and store connection after it" *)
Definition test_remove
  : M Z ((unit + exn) * list Z * list Z * list Z * list Z) :=
  push_back 16 1 ;;;
  push_back 32 2 ;;;
  push_back 48 3 ;;;
  push_back 64 4 ;;;
  r <- try_catch (remove 8 5) ;;
  fwd <- get_fwd 8 ;;
  bwd <- get_bwd 8 ;;
  remove 8 4 ;;;
  fwd' <- get_fwd 8 ;;
  bwd' <- get_bwd 8 ;;
  ret (r, fwd, bwd, fwd', bwd').

(** "correct when becomes empty, empty list access throws exception" *)
Definition test_becomes_empty
  : M Z (bool * Z * bool * Z * (Z + exn) * (Z + exn)) :=
  push_back 16 1 ;;;
  push_back 32 2 ;;;
  push_back 48 3 ;;;
  e <- empty ;;
  n <- size ;;
  remove 8 1 ;;;
  remove 8 2 ;;;
  remove 8 3 ;;;
  e' <- empty ;;
  n' <- size ;;
  f <- try_catch front ;;
  b <- try_catch back ;;
  ret (e, n, e', n', f, b).

Section Proofs.

Context {T : Type} `{EqDecision T}.

(** ** Lists of distinct machine addresses *)

(** Pairwise distinct integers from an interval are no more than the
    interval holds. *)
Lemma NoDup_range_length (l : list Z) (lo hi : Z) :
  NoDup l ->
  (forall x, x ∈ l -> lo <= x < hi) ->
  Z.of_nat (length l) <= Z.max 0 (hi - lo).
Proof.
  intros Hnd Hr.
  pose (f := fun x : Z => Z.to_nat (x - lo)).
  assert (Hsub : (f <$> l) ⊆+ seq 0 (Z.to_nat (hi - lo))).
  { apply NoDup_submseteq.
    - apply NoDup_fmap_2_strong; [|done].
      intros x y Hx Hy Hxy. apply Hr in Hx, Hy. unfold f in Hxy. lia.
    - intros n Hn. apply list_elem_of_fmap in Hn as (x & -> & Hx).
      apply Hr in Hx. apply elem_of_seq. unfold f. lia. }
  apply submseteq_length in Hsub.
  rewrite length_fmap, length_seq in Hsub. lia.
Qed.

(** ** Cells and segments *)

Lemma first_ptr_app (c1 c2 : list (Z * T)) d :
  first_ptr (c1 ++ c2) d = first_ptr c1 (first_ptr c2 d).
Proof. by destruct c1. Qed.

Lemma last_ptr_app (c1 c2 : list (Z * T)) d :
  last_ptr (c1 ++ c2) d = last_ptr c2 (last_ptr c1 d).
Proof. revert d. induction c1 as [|c c1 IH]; intros d; simpl; [done|apply IH]. Qed.

Lemma first_ptr_elem (cs : list (Z * T)) d :
  cs <> [] -> first_ptr cs d ∈ cs.*1.
Proof. destruct cs as [|c cs]; [done|]. intros _. simpl. apply elem_of_cons. by left. Qed.

Lemma last_ptr_elem (cs : list (Z * T)) d :
  cs <> [] -> last_ptr cs d ∈ cs.*1.
Proof.
  revert d. induction cs as [|c cs IH]; intros d Hne; [done|].
  simpl. destruct cs as [|c' cs].
  - simpl. apply elem_of_cons. by left.
  - apply elem_of_cons. right. by apply IH.
Qed.

Lemma dseg_app h pp (c1 c2 : list (Z * T)) qn :
  dseg h pp (c1 ++ c2) qn <->
  dseg h pp c1 (first_ptr c2 qn) /\ dseg h (last_ptr c1 pp) c2 qn.
Proof.
  revert pp. induction c1 as [|c c1 IH]; intros pp; simpl.
  - tauto.
  - rewrite IH, first_ptr_app. tauto.
Qed.

(** A segment only depends on the nodes it is made of. *)
Lemma dseg_frame h h' pp (cs : list (Z * T)) qn :
  (forall p, p ∈ cs.*1 -> h' !! p = h !! p) ->
  dseg h pp cs qn -> dseg h' pp cs qn.
Proof.
  revert pp. induction cs as [|c cs IH]; intros pp Hag; simpl; [done|].
  intros [Hc Hrest]. split.
  - rewrite Hag; [done|]. simpl. apply elem_of_cons. by left.
  - apply IH; [|done]. intros p Hp. apply Hag. simpl. apply elem_of_cons. by right.
Qed.

(** The node of a cell, read off the segment. *)
Lemma dseg_lookup h pp (c1 c2 : list (Z * T)) p v qn :
  dseg h pp (c1 ++ (p, v) :: c2) qn ->
  h !! p = Some (mkNode (last_ptr c1 pp) v (first_ptr c2 qn)).
Proof. intros Hd. apply dseg_app in Hd as [_ Hd]. simpl in Hd. tauto. Qed.

(** Nodes of a well-formed list are never at the null address. *)
Lemma Repr_nonnull (s : List2D T) cs p : Repr s cs -> p ∈ cs.*1 -> p <> nullptr.
Proof. intros HR Hp. apply (repr_range _ _ HR) in Hp. unfold nullptr. lia. Qed.

Lemma Repr_length_bound (s : List2D T) cs : Repr s cs -> Z.of_nat (length cs) <= SIZE_MAX.
Proof.
  intros HR.
  pose proof (NoDup_range_length cs.*1 1 (SIZE_MAX + 1) (repr_nodup _ _ HR)) as Hb.
  rewrite length_fmap in Hb.
  assert (Hmax : Z.max 0 (SIZE_MAX + 1 - 1) = SIZE_MAX) by (unfold SIZE_MAX; lia).
  rewrite Hmax in Hb. apply Hb.
  intros x Hx. apply (repr_range _ _ HR) in Hx. lia.
Qed.

Lemma fresh_not_cell (s : List2D T) cs a : Repr s cs -> fresh_ptr s a -> a ∉ cs.*1.
Proof.
  intros HR [_ Hfree] Hin.
  apply (elem_of_list_to_set (C := gset Z)) in Hin.
  rewrite <- (repr_owned _ _ HR) in Hin. apply elem_of_dom in Hin.
  rewrite Hfree in Hin. by destruct Hin.
Qed.

(** With one more address in use the count still fits [size_t]. *)
Lemma Repr_room (s : List2D T) cs a :
  Repr s cs -> fresh_ptr s a -> Z.of_nat (length cs) + 1 <= SIZE_MAX.
Proof.
  intros HR Hf. pose proof (fresh_not_cell s cs a HR Hf) as Hnot.
  destruct Hf as [Ha _].
  pose proof (NoDup_range_length (a :: cs.*1) 1 (SIZE_MAX + 1)) as Hb.
  simpl in Hb. rewrite length_fmap in Hb.
  assert (Hmax : Z.max 0 (SIZE_MAX + 1 - 1) = SIZE_MAX) by (unfold SIZE_MAX; lia).
  rewrite Hmax in Hb.
  assert (Z.of_nat (S (length cs)) <= SIZE_MAX); [|lia].
  apply Hb.
  - apply NoDup_cons. split; [done|]. apply (repr_nodup _ _ HR).
  - intros x Hx. apply elem_of_cons in Hx as [->|Hx]; [lia|].
    apply (repr_range _ _ HR) in Hx. lia.
Qed.

(** ** Running the member functions *)

Lemma wrap_small z : 0 <= z <= SIZE_MAX -> wrap z = z.
Proof. intros Hz. unfold wrap. apply Z.mod_small. lia. Qed.

Lemma eqb_nullptr_false p : 0 < p -> (p =? nullptr) = false.
Proof. intros Hp. apply Z.eqb_neq. unfold nullptr. lia. Qed.

(** Unfold the monad, then execute as far as the hypotheses about the heap
    and about null tests allow. *)
Ltac unfold_M :=
  cbv beta iota delta
    [lock_guard bind ret throw out_of_fuel get_head get_tail get_size
     set_head set_tail set_size new_Node delete_Node load_prev
     load_value load_next store_prev store_next load store deref
     lock unlock]; simpl.

Ltac exec_step :=
  first
    [ rewrite lookup_insert_eq
    | rewrite lookup_insert_ne by done
    | rewrite lookup_delete_ne by done
    | match goal with
      | H : ?h !! ?p = Some _ |- context [?h !! ?p] => rewrite H
      | H : (?p =? ?q) = _ |- context [?p =? ?q] => rewrite H
      end ].

Ltac exec := unfold_M; repeat (exec_step; simpl).

Lemma dseg_snoc h pp (cs : list (Z * T)) p w qn :
  dseg h pp (cs ++ [(p, w)]) qn <->
  dseg h pp cs p /\ h !! p = Some (mkNode (last_ptr cs pp) w qn).
Proof. rewrite dseg_app. simpl. tauto. Qed.

Lemma dseg_insert_other h pp (cs : list (Z * T)) qn q nd :
  q ∉ cs.*1 -> dseg h pp cs qn -> dseg (<[q := nd]> h) pp cs qn.
Proof.
  intros Hq. apply dseg_frame. intros p Hp.
  apply lookup_insert_ne. by intros ->.
Qed.

Lemma dseg_delete_other h pp (cs : list (Z * T)) qn q :
  q ∉ cs.*1 -> dseg h pp cs qn -> dseg (delete q h) pp cs qn.
Proof.
  intros Hq. apply dseg_frame. intros p Hp.
  apply lookup_delete_ne. by intros ->.
Qed.

Lemma push_front_Repr (s : List2D T) cs a v :
  Repr s cs -> fresh_ptr s a ->
  exists s', push_front a v s = Returned tt s' /\ Repr s' ((a, v) :: cs).
Proof.
  intros HR Hf.
  pose proof (Repr_room _ _ _ HR Hf) as Hroom.
  pose proof (fresh_not_cell _ _ _ HR Hf) as Hna.
  destruct Hf as [Ha Hfree].
  destruct HR as [Hm Hh Ht Hn Hl Hnd Hrg Hdom].
  destruct s as [h hd tl n b]; simpl in *. subst b hd tl n.
  assert (Ha0 : (a =? nullptr) = false) by (apply eqb_nullptr_false; lia).
  unfold push_front.
  destruct cs as [|[p w] cs].
  - exec. eexists. split; [reflexivity|].
    constructor; simpl.
    + done.
    + done.
    + done.
    + rewrite wrap_small; lia.
    + split; [|done]. by rewrite lookup_insert_eq.
    + apply NoDup_singleton.
    + intros q Hq. apply list_elem_of_singleton in Hq as ->. done.
    + rewrite dom_insert_L, Hdom. simpl. set_solver.
  - simpl in *. destruct Hl as [Hp Hl].
    assert (Hp0 : (p =? nullptr) = false).
    { apply eqb_nullptr_false. apply Hrg. apply elem_of_cons. by left. }
    assert (Hpa : p <> a).
    { intros ->. apply Hna. apply elem_of_cons. by left. }
    apply NoDup_cons in Hnd as [Hpn Hnd].
    exec.
    eexists. split; [reflexivity|].
    constructor; simpl.
    + done.
    + done.
    + done.
    + rewrite wrap_small; lia.
    + split; [by rewrite lookup_insert_ne, lookup_insert_eq|].
      split; [by rewrite lookup_insert_eq|].
      apply dseg_insert_other; [done|].
      apply dseg_insert_other; [by intros Hin; apply Hna, elem_of_cons; right|].
      apply dseg_insert_other; [by intros Hin; apply Hna, elem_of_cons; right|].
      done.
    + apply NoDup_cons. split; [done|]. apply NoDup_cons. done.
    + intros q Hq. apply elem_of_cons in Hq as [->|Hq]; [done|]. by apply Hrg.
    + rewrite !dom_insert_L, Hdom. set_solver.
Qed.

Lemma push_back_Repr (s : List2D T) cs a v :
  Repr s cs -> fresh_ptr s a ->
  exists s', push_back a v s = Returned tt s' /\ Repr s' (cs ++ [(a, v)]).
Proof.
  intros HR Hf.
  pose proof (Repr_room _ _ _ HR Hf) as Hroom.
  pose proof (fresh_not_cell _ _ _ HR Hf) as Hna.
  destruct Hf as [Ha Hfree].
  destruct HR as [Hm Hh Ht Hn Hl Hnd Hrg Hdom].
  destruct s as [h hd tl n b]; simpl in *. subst b hd tl n.
  assert (Ha0 : (a =? nullptr) = false) by (apply eqb_nullptr_false; lia).
  unfold push_back.
  destruct cs as [|c cs _] using rev_ind.
  - exec. eexists. split; [reflexivity|].
    constructor; simpl.
    + done.
    + done.
    + done.
    + rewrite wrap_small; lia.
    + split; [|done]. by rewrite lookup_insert_eq.
    + apply NoDup_singleton.
    + intros q Hq. apply list_elem_of_singleton in Hq as ->. done.
    + rewrite dom_insert_L, Hdom. simpl. set_solver.
  - destruct c as [p w].
    assert (Hhd : (first_ptr (cs ++ [(p, w)]) nullptr =? nullptr) = false).
    { apply eqb_nullptr_false. apply Hrg. apply first_ptr_elem. by destruct cs. }
    rewrite fmap_app in Hnd, Hrg, Hdom, Hna. simpl in Hnd, Hrg, Hdom, Hna.
    apply NoDup_app in Hnd as (Hnd & Hdisj & _).
    assert (Hpcs : p ∉ cs.*1).
    { intros Hin. apply (Hdisj _ Hin). apply list_elem_of_singleton. done. }
    apply dseg_snoc in Hl as [Hl Hp].
    assert (Hp0 : (p =? nullptr) = false).
    { apply eqb_nullptr_false. apply Hrg. apply elem_of_app. right.
      by apply list_elem_of_singleton. }
    assert (Hpa : p <> a).
    { intros ->. apply Hna. apply elem_of_app. right.
      by apply list_elem_of_singleton. }
    assert (Hacs : a ∉ cs.*1).
    { intros Hin. apply Hna. apply elem_of_app. by left. }
    rewrite last_ptr_app in *. simpl in *.
    exec.
    eexists. split; [reflexivity|].
    rewrite length_app in *. simpl in *.
    constructor; simpl.
    + done.
    + by rewrite !first_ptr_app.
    + by rewrite !last_ptr_app.
    + rewrite length_app, length_app. simpl. rewrite wrap_small; lia.
    + apply dseg_snoc. split.
      * apply dseg_snoc. split.
        -- by apply dseg_insert_other, dseg_insert_other.
        -- by rewrite lookup_insert_eq.
      * rewrite last_ptr_app. simpl.
        by rewrite lookup_insert_ne, lookup_insert_eq.
    + rewrite !fmap_app. simpl. apply NoDup_app. split; [|split].
      * apply NoDup_app. split; [done|]. split; [done|]. apply NoDup_singleton.
      * intros q Hq Hqa. apply list_elem_of_singleton in Hqa as ->.
        apply elem_of_app in Hq as [Hq|Hq]; [done|].
        apply list_elem_of_singleton in Hq. done.
      * apply NoDup_singleton.
    + rewrite !fmap_app. simpl. intros q Hq.
      apply elem_of_app in Hq as [Hq|Hq]; [by apply Hrg|].
      apply list_elem_of_singleton in Hq as ->. done.
    + rewrite !dom_insert_L, Hdom, !fmap_app. simpl.
      rewrite !list_to_set_app_L. simpl. set_solver.
Qed.

(** ** The loops *)

Ltac unfold_loop :=
  cbv beta iota delta
    [bind ret throw out_of_fuel load_prev load_value load_next load deref].

Lemma find_loop_found val (s : List2D T) pp (c1 c2 : list (Z * T)) p qn fuel :
  dseg (mem s) pp (c1 ++ (p, val) :: c2) qn ->
  (forall q, q ∈ (c1 ++ [(p, val)]).*1 -> q <> nullptr) ->
  val ∉ c1.*2 ->
  find_loop fuel val (first_ptr (c1 ++ (p, val) :: c2) qn) s =
    if decide (length c1 < fuel)%nat then Returned p s else OutOfFuel.
Proof.
  revert pp fuel. induction c1 as [|[q w] c1 IH]; intros pp fuel Hd Hnn Hval.
  - destruct Hd as [Hp _]. simpl in *.
    destruct fuel as [|fuel]; [done|]. simpl. unfold_loop.
    assert (Hp0 : (p =? nullptr) = false).
    { apply Z.eqb_neq, Hnn, list_elem_of_singleton. done. }
    rewrite Hp0, Hp. simpl. rewrite bool_decide_eq_true_2 by done.
    destruct (decide (0 < S fuel)%nat); [done|lia].
  - destruct Hd as [Hq Hd]. simpl in *.
    apply not_elem_of_cons in Hval as [Hwv Hval].
    assert (Hq0 : (q =? nullptr) = false).
    { apply Z.eqb_neq, Hnn, elem_of_cons. by left. }
    destruct fuel as [|fuel].
    { simpl. destruct (decide (S (length c1) < 0)%nat); [lia|done]. }
    simpl. unfold_loop. rewrite Hq0, Hq. simpl.
    rewrite bool_decide_eq_false_2 by done. rewrite Hq. simpl.
    rewrite (IH q fuel Hd); [|by intros r Hr; apply Hnn, elem_of_cons; right|done].
    destruct (decide (length c1 < fuel)%nat), (decide (S (length c1) < S fuel)%nat);
      try done; lia.
Qed.

Lemma find_loop_missing val (s : List2D T) pp (cs : list (Z * T)) fuel :
  dseg (mem s) pp cs nullptr ->
  (forall q, q ∈ cs.*1 -> q <> nullptr) ->
  val ∉ cs.*2 ->
  find_loop fuel val (first_ptr cs nullptr) s =
    if decide (length cs < fuel)%nat then Returned nullptr s else OutOfFuel.
Proof.
  revert pp fuel. induction cs as [|[q w] cs IH]; intros pp fuel Hd Hnn Hval.
  - destruct fuel as [|fuel]; simpl; [done|].
    destruct (decide (0 < S fuel)%nat); [done|lia].
  - destruct Hd as [Hq Hd]. simpl in *.
    apply not_elem_of_cons in Hval as [Hwv Hval].
    assert (Hq0 : (q =? nullptr) = false).
    { apply Z.eqb_neq, Hnn, elem_of_cons. by left. }
    destruct fuel as [|fuel].
    { simpl. destruct (decide (S (length cs) < 0)%nat); [lia|done]. }
    simpl. unfold_loop. rewrite Hq0, Hq. simpl.
    rewrite bool_decide_eq_false_2 by done. rewrite Hq. simpl.
    rewrite (IH q fuel Hd); [|by intros r Hr; apply Hnn, elem_of_cons; right|done].
    destruct (decide (length cs < fuel)%nat), (decide (S (length cs) < S fuel)%nat);
      try done; lia.
Qed.

Lemma get_fwd_loop_spec (s : List2D T) pp (cs : list (Z * T)) acc fuel :
  dseg (mem s) pp cs nullptr ->
  (forall q, q ∈ cs.*1 -> q <> nullptr) ->
  get_fwd_loop fuel (first_ptr cs nullptr) acc s =
    if decide (length cs < fuel)%nat then Returned (acc ++ cs.*2) s
    else OutOfFuel.
Proof.
  revert pp acc fuel. induction cs as [|[q w] cs IH]; intros pp acc fuel Hd Hnn.
  - destruct fuel as [|fuel]; simpl; [done|].
    rewrite app_nil_r. destruct (decide (0 < S fuel)%nat); [done|lia].
  - destruct Hd as [Hq Hd]. simpl in *.
    assert (Hq0 : (q =? nullptr) = false).
    { apply Z.eqb_neq, Hnn, elem_of_cons. by left. }
    destruct fuel as [|fuel].
    { simpl. destruct (decide (S (length cs) < 0)%nat); [lia|done]. }
    simpl. unfold_loop. rewrite Hq0, Hq. simpl. rewrite Hq. simpl.
    rewrite (IH q _ fuel Hd); [|by intros r Hr; apply Hnn, elem_of_cons; right].
    rewrite <- app_assoc. simpl.
    destruct (decide (length cs < fuel)%nat), (decide (S (length cs) < S fuel)%nat);
      try done; lia.
Qed.

Lemma get_bwd_loop_spec (s : List2D T) (cs : list (Z * T)) qn acc fuel :
  dseg (mem s) nullptr cs qn ->
  (forall q, q ∈ cs.*1 -> q <> nullptr) ->
  get_bwd_loop fuel (last_ptr cs nullptr) acc s =
    if decide (length cs < fuel)%nat then Returned (acc ++ rev cs.*2) s
    else OutOfFuel.
Proof.
  revert qn acc fuel. induction cs as [|[q w] cs IH] using rev_ind;
    intros qn acc fuel Hd Hnn.
  - destruct fuel as [|fuel]; simpl; [done|].
    rewrite app_nil_r. destruct (decide (0 < S fuel)%nat); [done|lia].
  - apply dseg_snoc in Hd as [Hd Hq].
    rewrite last_ptr_app, fmap_app, rev_app_distr, length_app. simpl.
    assert (Hq0 : (q =? nullptr) = false).
    { apply Z.eqb_neq, Hnn. rewrite fmap_app. apply elem_of_app. right.
      by apply list_elem_of_singleton. }
    destruct fuel as [|fuel].
    { simpl. destruct (decide (length cs + 1 < 0)%nat); [lia|done]. }
    simpl. unfold_loop. rewrite Hq0, Hq. simpl. rewrite Hq. simpl.
    rewrite (IH q _ fuel Hd).
    2:{ intros r Hr. apply Hnn. rewrite fmap_app. apply elem_of_app. by left. }
    rewrite <- app_assoc. simpl.
    destruct (decide (length cs < fuel)%nat), (decide (length cs + 1 < S fuel)%nat);
      try done; lia.
Qed.

(** ** The accessors *)

Lemma Repr_nonnull_all (s : List2D T) cs : Repr s cs -> forall q, q ∈ cs.*1 -> q <> nullptr.
Proof. intros HR q Hq. by eapply Repr_nonnull. Qed.

Lemma front_Repr (s : List2D T) cs :
  Repr s cs ->
  front s = match cs with
            | [] => Thrown AcceessViolation s
            | c :: _ => Returned c.2 s
            end.
Proof.
  intros HR. pose proof (Repr_nonnull_all _ _ HR) as Hnn.
  destruct HR as [Hm Hh Ht Hn Hl Hnd Hrg Hdom].
  destruct s as [h hd tl n b]; simpl in *. subst b hd tl n.
  unfold front. destruct cs as [|[p v] cs]; [done|].
  destruct Hl as [Hp _]. simpl in *.
  assert (Hp0 : (p =? nullptr) = false).
  { apply Z.eqb_neq, Hnn, elem_of_cons. by left. }
  by exec.
Qed.

Lemma back_Repr (s : List2D T) cs :
  Repr s cs ->
  back s = match last cs with
           | None => Thrown AcceessViolation s
           | Some c => Returned c.2 s
           end.
Proof.
  intros HR. pose proof (Repr_nonnull_all _ _ HR) as Hnn.
  destruct HR as [Hm Hh Ht Hn Hl Hnd Hrg Hdom].
  destruct s as [h hd tl n b]; simpl in *. subst b hd tl n.
  unfold back. destruct cs as [|[p v] cs _] using rev_ind; [done|].
  apply dseg_snoc in Hl as [_ Hp].
  assert (Hp0 : (p =? nullptr) = false).
  { apply Z.eqb_neq, Hnn. rewrite fmap_app. apply elem_of_app. right.
    by apply list_elem_of_singleton. }
  rewrite last_snoc, last_ptr_app. simpl. by exec.
Qed.

Lemma size_unlocked (s : List2D T) : mutex_ s = false -> size s = Returned (size_ s) s.
Proof. destruct s as [h hd tl n b]; simpl. by intros ->. Qed.

Lemma empty_unlocked (s : List2D T) :
  mutex_ s = false -> empty s = Returned (size_ s =? 0) s.
Proof. destruct s as [h hd tl n b]; simpl. by intros ->. Qed.

Lemma get_fwd_Repr (s : List2D T) cs fuel :
  Repr s cs ->
  get_fwd fuel s =
    if decide (length cs < fuel)%nat then Returned cs.*2 s else OutOfFuel.
Proof.
  intros HR. pose proof (Repr_nonnull_all _ _ HR) as Hnn.
  destruct HR as [Hm Hh Ht Hn Hl Hnd Hrg Hdom].
  destruct s as [h hd tl n b]; simpl in *. subst b hd tl n.
  unfold get_fwd. unfold_M.
  erewrite get_fwd_loop_spec; [|exact Hl|exact Hnn].
  by destruct (decide (length cs < fuel)%nat).
Qed.

Lemma get_bwd_Repr (s : List2D T) cs fuel :
  Repr s cs ->
  get_bwd fuel s =
    if decide (length cs < fuel)%nat then Returned (rev cs.*2) s
    else OutOfFuel.
Proof.
  intros HR. pose proof (Repr_nonnull_all _ _ HR) as Hnn.
  destruct HR as [Hm Hh Ht Hn Hl Hnd Hrg Hdom].
  destruct s as [h hd tl n b]; simpl in *. subst b hd tl n.
  unfold get_bwd. unfold_M.
  erewrite get_bwd_loop_spec; [|exact Hl|exact Hnn].
  by destruct (decide (length cs < fuel)%nat).
Qed.

(** ** Removal *)

Lemma remove_missing (s : List2D T) cs val fuel :
  Repr s cs -> val ∉ cs.*2 ->
  remove fuel val s =
    if decide (length cs < fuel)%nat then Thrown ElementNotFound s
    else OutOfFuel.
Proof.
  intros HR Hval. pose proof (Repr_nonnull_all _ _ HR) as Hnn.
  destruct HR as [Hm Hh Ht Hn Hl Hnd Hrg Hdom].
  destruct s as [h hd tl n b]; simpl in *. subst b hd tl n.
  unfold remove, find. unfold_M.
  erewrite find_loop_missing; [|exact Hl|exact Hnn|exact Hval].
  by destruct (decide (length cs < fuel)%nat).
Qed.

Lemma remove_found (s : List2D T) (c1 c2 : list (Z * T)) p val :
  Repr s (c1 ++ (p, val) :: c2) -> val ∉ c1.*2 ->
  exists s',
    Repr s' (c1 ++ c2) /\
    forall fuel,
      remove fuel val s =
        if decide (length c1 < fuel)%nat then Returned tt s' else OutOfFuel.
Proof.
  intros HR Hval.
  pose proof (Repr_nonnull_all _ _ HR) as Hnn.
  pose proof (Repr_length_bound _ _ HR) as Hlen.
  destruct HR as [Hm Hh Ht Hn Hl Hnd Hrg Hdom].
  destruct s as [h hd tl n b]; simpl in *. subst b hd tl n.
  assert (Hfind : forall fuel b,
    find_loop fuel val (first_ptr (c1 ++ (p, val) :: c2) nullptr)
      (mkList h (first_ptr (c1 ++ (p, val) :: c2) nullptr)
              (last_ptr (c1 ++ (p, val) :: c2) nullptr)
              (Z.of_nat (length (c1 ++ (p, val) :: c2))) b) =
    if decide (length c1 < fuel)%nat
    then Returned p
      (mkList h (first_ptr (c1 ++ (p, val) :: c2) nullptr)
              (last_ptr (c1 ++ (p, val) :: c2) nullptr)
              (Z.of_nat (length (c1 ++ (p, val) :: c2))) b)
    else OutOfFuel).
  { intros fuel b. apply (find_loop_found val _ nullptr); [done| |done].
    intros q Hq. apply Hnn. rewrite fmap_app in *. simpl in *.
    apply elem_of_app in Hq as [Hq|Hq]; apply elem_of_app; [by left|right].
    apply list_elem_of_singleton in Hq as ->. apply elem_of_cons. by left. }
  pose proof (dseg_lookup _ _ _ _ _ _ _ Hl) as Hp.
  assert (Hp0 : (p =? nullptr) = false).
  { apply Z.eqb_neq, Hnn. rewrite fmap_app. apply elem_of_app. right.
    apply elem_of_cons. by left. }
  rewrite fmap_app in Hnd, Hrg, Hdom. simpl in Hnd, Hrg, Hdom.
  apply NoDup_app in Hnd as (Hnd1 & Hdisj & Hnd2).
  apply NoDup_cons in Hnd2 as [Hp2 Hnd2].
  assert (Hp1 : p ∉ c1.*1).
  { intros Hin. apply (Hdisj _ Hin). apply elem_of_cons. by left. }
  rewrite length_app in Hlen. simpl in Hlen.
  apply dseg_app in Hl as [Hl1 Hl2]. simpl in Hl1, Hl2. destruct Hl2 as [_ Hl2].
  destruct c1 as [|[q w] c1 _] using rev_ind.
  - (* the match is the head *)
    destruct c2 as [|[r u] c2]; simpl in *.
    + eexists. split; last first.
      { intros fuel. unfold remove, find. unfold_M. rewrite (Hfind fuel true).
        destruct (decide (0 < fuel)%nat); [|done].
        exec. rewrite Z.eqb_refl. exec. reflexivity. }
      constructor; simpl.
      * done.
      * done.
      * done.
      * rewrite wrap_small; lia.
      * done.
      * apply NoDup_nil_2.
      * intros x Hx. by apply elem_of_nil in Hx.
      * rewrite dom_delete_L, Hdom. set_solver.
    + destruct Hl2 as [Hr Hl2].
      assert (Hr0 : (r =? nullptr) = false).
      { apply Z.eqb_neq, Hnn. apply elem_of_cons. right. apply elem_of_cons. by left. }
      apply not_elem_of_cons in Hp2 as [Hpr Hp2].
      apply NoDup_cons in Hnd2 as [Hr2 Hnd2].
      eexists. split; last first.
      { intros fuel. unfold remove, find. unfold_M. rewrite (Hfind fuel true).
        destruct (decide (0 < fuel)%nat); [|done].
        exec. rewrite Z.eqb_refl. exec. reflexivity. }
      constructor; simpl.
      * done.
      * done.
      * done.
      * rewrite wrap_small; lia.
      * split; [by rewrite lookup_delete_ne, lookup_insert_eq|].
        by apply dseg_delete_other, dseg_insert_other.
      * by apply NoDup_cons.
      * intros x Hx. apply Hrg. apply elem_of_cons. by right.
      * rewrite dom_delete_L, dom_insert_L, Hdom. set_solver.
  - assert (Hhd : (p =? first_ptr ((c1 ++ [(q, w)]) ++ (p, val) :: c2) nullptr) = false).
    { apply Z.eqb_neq. intros Heq. apply Hp1.
      rewrite first_ptr_app in Heq. rewrite Heq. apply first_ptr_elem.
      by destruct c1. }
    rewrite fmap_app in Hnd1, Hp1, Hdisj. simpl in Hnd1, Hp1, Hdisj.
    remember (first_ptr ((c1 ++ [(q, w)]) ++ (p, val) :: c2) nullptr) as hd0 eqn:Ehd0.
    apply dseg_snoc in Hl1 as [Hl1 Hq].
    rewrite last_ptr_app in Hp. simpl in Hp.
    rewrite !length_app in Hlen. simpl in Hlen.
    apply not_elem_of_app in Hp1 as [Hp1 Hpq].
    apply not_elem_of_cons in Hpq as [Hpq _].
    apply NoDup_app in Hnd1 as (Hnd1 & Hq1 & _).
    assert (Hqc1 : q ∉ c1.*1).
    { intros Hin. apply (Hq1 _ Hin). by apply list_elem_of_singleton. }
    assert (Hq0 : (q =? nullptr) = false).
    { apply Z.eqb_neq, Hnn. rewrite !fmap_app. apply elem_of_app. left.
      apply elem_of_app. right. by apply list_elem_of_singleton. }
    assert (Hqc2 : q ∉ c2.*1).
    { intros Hin. eapply Hdisj; [|apply elem_of_cons; right; exact Hin].
      apply elem_of_app. right. by apply list_elem_of_singleton. }
    assert (Hc1c2 : forall x, x ∈ c1.*1 -> x ∉ c2.*1).
    { intros x Hx Hin. eapply Hdisj; [|apply elem_of_cons; right; exact Hin].
      apply elem_of_app. by left. }
    destruct c2 as [|[r u] c2].
    + (* the match is the tail *)
      rewrite last_ptr_app in Hfind |- *. simpl in *.
      eexists. split; last first.
      { intros fuel. unfold remove, find. unfold_M. rewrite (Hfind fuel true).
        destruct (decide (length (c1 ++ [(q, w)]) < fuel)%nat); [|done].
        exec. rewrite Z.eqb_refl. exec. reflexivity. }
      rewrite app_nil_r.
      constructor; simpl.
      * done.
      * by rewrite Ehd0, !first_ptr_app.
      * by rewrite last_ptr_app.
      * rewrite !length_app. simpl. rewrite wrap_small; lia.
      * apply dseg_snoc. split.
        -- by apply dseg_delete_other, dseg_insert_other.
        -- by rewrite lookup_delete_ne, lookup_insert_eq.
      * rewrite fmap_app. apply NoDup_app. split; [done|]. split; [done|].
        apply NoDup_singleton.
      * intros x Hx. apply Hrg. apply elem_of_app. by left.
      * rewrite dom_delete_L, dom_insert_L, Hdom, fmap_app.
        rewrite !list_to_set_app_L. simpl. set_solver.
    + (* the match is in the middle *)
      destruct Hl2 as [Hr Hl2]. simpl in Hp, Hr, Hl2.
      assert (Hr0 : (r =? nullptr) = false).
      { apply Z.eqb_neq, Hnn. rewrite !fmap_app. apply elem_of_app. right.
        apply elem_of_cons. right. apply elem_of_cons. by left. }
      simpl in Hp2, Hnd2, Hqc2.
      apply not_elem_of_cons in Hp2 as [Hpr Hp2].
      apply NoDup_cons in Hnd2 as [Hr2 Hnd2].
      apply not_elem_of_cons in Hqc2 as [Hqr Hqc2].
      assert (Hrc1 : r ∉ c1.*1).
      { intros Hin. apply (Hc1c2 _ Hin). apply elem_of_cons. by left. }
      assert (Htl : (p =? last_ptr ((c1 ++ [(q, w)]) ++ (p, val) :: (r, u) :: c2) nullptr) = false).
      { apply Z.eqb_neq. intros Heq. rewrite last_ptr_app in Heq. simpl in Heq.
        assert (Hin : p ∈ ((r, u) :: c2).*1).
        { rewrite Heq. apply (last_ptr_elem ((r, u) :: c2) p). done. }
        simpl in Hin. apply elem_of_cons in Hin as [Hin|Hin]; done. }
      remember (last_ptr ((c1 ++ [(q, w)]) ++ (p, val) :: (r, u) :: c2) nullptr) as tl0 eqn:Etl0.
      eexists. split; last first.
      { intros fuel. unfold remove, find. unfold_M. rewrite (Hfind fuel true).
        destruct (decide (length (c1 ++ [(q, w)]) < fuel)%nat); [|done].
        exec. reflexivity. }
      constructor; simpl.
      * done.
      * by rewrite Ehd0, !first_ptr_app.
      * rewrite Etl0, !last_ptr_app. done.
      * rewrite !length_app in *. simpl in *. rewrite wrap_small; lia.
      * apply dseg_app. simpl. split; [|split].
        -- apply dseg_snoc. split.
           ++ by apply dseg_delete_other, dseg_insert_other, dseg_insert_other.
           ++ by rewrite lookup_delete_ne, lookup_insert_ne, lookup_insert_eq.
        -- rewrite last_ptr_app. simpl.
           by rewrite lookup_delete_ne, lookup_insert_eq.
        -- by apply dseg_delete_other, dseg_insert_other, dseg_insert_other.
      * rewrite !fmap_app. simpl. apply NoDup_app. split; [|split].
        -- apply NoDup_app. split; [done|]. split; [done|]. apply NoDup_singleton.
        -- intros x Hx. apply (Hdisj x) in Hx as Hx'.
           intros Hin. apply Hx'. apply elem_of_cons. by right.
        -- by apply NoDup_cons.
      * intros x Hx. apply Hrg. revert Hx. rewrite !fmap_app. simpl.
        rewrite !elem_of_app, !elem_of_cons. tauto.
      * rewrite dom_delete_L, !dom_insert_L, Hdom, !fmap_app.
        rewrite !list_to_set_app_L. simpl. set_solver.
Qed.

(** ** The invariant in terms of pointers *)

Lemma walk_dseg h pp (cs : list (Z * T)) qn i :
  dseg h pp cs qn -> (i <= length cs)%nat ->
  walk h i (first_ptr cs qn) = Some (first_ptr (drop i cs) qn).
Proof.
  revert pp i. induction cs as [|c cs IH]; intros pp i Hd Hi.
  - simpl in Hi. assert (i = O) as -> by lia. done.
  - destruct i as [|i]; [done|]. destruct Hd as [Hc Hd]. simpl in *.
    rewrite Hc. simpl. apply (IH c.1); [done|lia].
Qed.

Lemma ptr_at (cs : list (Z * T)) d i :
  (i < length cs)%nat -> cs.*1 !! i = Some (first_ptr (drop i cs) d).
Proof.
  revert i. induction cs as [|c cs IH]; intros i Hi; simpl in *; [lia|].
  destruct i as [|i]; [done|]. simpl. apply IH. lia.
Qed.

Lemma last_ptr_take (cs : list (Z * T)) d d' i :
  (i < length cs)%nat ->
  last_ptr (take (S i) cs) d = first_ptr (drop i cs) d'.
Proof.
  revert d i. induction cs as [|c cs IH]; intros d i Hi; simpl in *; [lia|].
  destruct i as [|i].
  - by rewrite take_0.
  - rewrite (IH _ i) by lia. done.
Qed.

Lemma last_ptr_drop (cs : list (Z * T)) d d' :
  cs <> [] -> first_ptr (drop (length cs - 1) cs) d = last_ptr cs d'.
Proof.
  destruct cs as [|c cs _] using rev_ind; [done|]. intros _.
  rewrite length_app, last_ptr_app. simpl.
  replace (length cs + 1 - 1)%nat with (length cs) by lia.
  by rewrite drop_app_length.
Qed.

Lemma Repr_ends_agree (s : List2D T) cs : Repr s cs -> ends_agree s.
Proof.
  intros HR. pose proof (Repr_nonnull_all _ _ HR) as Hnn.
  destruct HR as [Hm Hh Ht Hn Hl Hnd Hrg Hdom]. unfold ends_agree.
  rewrite Hh, Ht, Hn. destruct cs as [|c cs].
  - done.
  - pose proof (Hnn _ (first_ptr_elem (c :: cs) nullptr ltac:(done))) as H1.
    pose proof (Hnn _ (last_ptr_elem (c :: cs) nullptr ltac:(done))) as H2.
    simpl length. split; split; intros H; try done; lia.
Qed.

Lemma Repr_chain_ok (s : List2D T) cs : Repr s cs -> chain_ok s.
Proof.
  intros HR. destruct HR as [Hm Hh Ht Hn Hl Hnd Hrg Hdom]. unfold chain_ok.
  rewrite Hh, Ht, Hn. split; [lia|]. split; [|split].
  - intros Hne. assert (Hcs : cs <> []) by (by destruct cs).
    replace (Z.to_nat (Z.of_nat (length cs) - 1)) with (length cs - 1)%nat by lia.
    rewrite Nat2Z.id.
    rewrite !(walk_dseg _ _ _ _ _ Hl) by lia.
    rewrite (last_ptr_drop cs nullptr nullptr Hcs).
    by rewrite drop_all.
  - intros i j p Hij Hj Hwi Hwj.
    rewrite (walk_dseg _ _ _ _ _ Hl) in Hwi by lia.
    rewrite (walk_dseg _ _ _ _ _ Hl) in Hwj by lia.
    rewrite <- (ptr_at cs nullptr i) in Hwi by lia.
    rewrite <- (ptr_at cs nullptr j) in Hwj by lia.
    pose proof (NoDup_lookup _ _ _ _ Hnd Hwi Hwj). lia.
  - intros p Hp. apply elem_of_dom in Hp. rewrite Hdom in Hp.
    apply elem_of_list_to_set in Hp.
    apply list_elem_of_lookup in Hp as [i Hi].
    pose proof (lookup_lt_Some _ _ _ Hi) as Hlt. rewrite length_fmap in Hlt.
    exists i. split; [lia|].
    rewrite (walk_dseg _ _ _ _ _ Hl) by lia.
    by rewrite <- (ptr_at cs nullptr i) by lia.
Qed.

Lemma Repr_back_links_ok (s : List2D T) cs : Repr s cs -> back_links_ok s.
Proof.
  intros HR. destruct HR as [Hm Hh Ht Hn Hl Hnd Hrg Hdom]. unfold back_links_ok.
  rewrite Hh, Hn. split.
  - intros nd Hne Hnd'. destruct cs as [|c cs]; [done|].
    destruct Hl as [Hc _]. simpl in *. rewrite Hc in Hnd'. by injection Hnd' as <-.
  - intros i p q nd Hi Hwp Hwq Hq.
    rewrite (walk_dseg _ _ _ _ _ Hl) in Hwp by lia.
    rewrite (walk_dseg _ _ _ _ _ Hl) in Hwq by lia.
    injection Hwp as <-. injection Hwq as <-.
    rewrite <- (take_drop (S i) cs) in Hl.
    destruct (drop (S i) cs) as [|[q v] c2] eqn:Hdrop.
    { apply (f_equal length) in Hdrop. rewrite length_drop in Hdrop.
      simpl in Hdrop. lia. }
    apply dseg_lookup in Hl. simpl in Hq. rewrite Hl in Hq.
    injection Hq as <-. simpl.
    apply last_ptr_take. lia.
Qed.

Lemma Repr_valid_nodes (s : List2D T) cs : Repr s cs -> valid_nodes s.
Proof.
  intros HR p Hp. apply (repr_range _ _ HR).
  apply elem_of_dom in Hp. rewrite (repr_owned _ _ HR) in Hp.
  by apply elem_of_list_to_set in Hp.
Qed.

Lemma Repr_Inv (s : List2D T) cs : Repr s cs -> Inv s.
Proof.
  intros HR. constructor.
  - apply (repr_unlocked _ _ HR).
  - by eapply Repr_valid_nodes.
  - by eapply Repr_ends_agree.
  - by eapply Repr_chain_ok.
  - by eapply Repr_back_links_ok.
Qed.

(** Conversely, the invariant on the pointers determines the cells. *)

Lemma cells_from_length (h : gmap Z (Node T)) n p q :
  walk h n p = Some q -> length (cells_from h n p) = n.
Proof.
  revert p. induction n as [|n IH]; intros p Hw; simpl in *; [done|].
  destruct (h !! p) as [nd|]; [|done]. simpl. f_equal. by apply IH.
Qed.

Lemma cells_from_lookup (h : gmap Z (Node T)) n p q i :
  walk h n p = Some q -> (i < n)%nat ->
  (cells_from h n p).*1 !! i = walk h i p.
Proof.
  revert p i. induction n as [|n IH]; intros p i Hw Hi; [lia|].
  destruct i as [|i]; simpl in *.
  - by destruct (h !! p).
  - destruct (h !! p) as [nd|]; [|done]. simpl. apply IH; [done|lia].
Qed.

Lemma cells_from_alloc (h : gmap Z (Node T)) n p q a :
  walk h n p = Some q -> a ∈ (cells_from h n p).*1 -> is_Some (h !! a).
Proof.
  revert p. induction n as [|n IH]; intros p Hw Ha; simpl in *.
  - by apply elem_of_nil in Ha.
  - destruct (h !! p) as [nd|] eqn:Hp; [|done]. simpl in Ha.
    apply elem_of_cons in Ha as [->|Ha]; [by rewrite Hp|]. by eapply IH.
Qed.

Lemma cells_from_first (h : gmap Z (Node T)) n p q :
  walk h n p = Some q -> first_ptr (cells_from h n p) q = p.
Proof.
  destruct n as [|n]; simpl.
  - by intros [= ->].
  - destruct (h !! p); [done|]. done.
Qed.

Lemma cells_from_dseg (h : gmap Z (Node T)) n p pp q :
  walk h n p = Some q ->
  (n <> O -> forall nd, h !! p = Some nd -> prev nd = pp) ->
  (forall i a b nd,
     (S i < n)%nat ->
     walk h i p = Some a -> walk h (S i) p = Some b ->
     h !! b = Some nd -> prev nd = a) ->
  dseg h pp (cells_from h n p) q.
Proof.
  revert p pp. induction n as [|n IH]; intros p pp Hw Hfirst Hback;
    simpl in Hw |- *.
  - done.
  - destruct (h !! p) as [nd|] eqn:Hp; [|done]. simpl. split.
    + rewrite (cells_from_first h n (next nd) q Hw).
      rewrite <- (Hfirst ltac:(done) nd eq_refl). by destruct nd.
    + apply IH; [done| |].
      * intros Hn nd' Hnd'.
        apply (Hback O p (next nd) nd'); simpl; [lia|done| |done].
        by rewrite Hp.
      * intros i a b nd' Hi Ha Hb Hnd'.
        apply (Hback (S i) a b nd'); simpl; [lia| | |done]; by rewrite Hp.
Qed.

Lemma Inv_Repr (s : List2D T) : Inv s -> Repr s (cells_of s).
Proof.
  intros [Hm Hvalid [Hht Hts] (Hpos & Hends & Hdist & Hcover) [Hfirst Hback]].
  unfold cells_of.
  destruct (decide (size_ s = 0)) as [Hz|Hnz].
  - (* the empty list *)
    rewrite Hz. simpl. constructor; simpl.
    + done.
    + tauto.
    + tauto.
    + done.
    + done.
    + apply NoDup_nil_2.
    + intros p Hp. by apply elem_of_nil in Hp.
    + apply set_eq. intros p. rewrite elem_of_dom. split.
      * intros Hp. destruct (Hcover p Hp) as (i & Hi & _). lia.
      * intros Hp. by apply elem_of_empty in Hp.
  - destruct (Hends Hnz) as [Htail Hnull].
    set (n := Z.to_nat (size_ s)) in *.
    assert (Hn : size_ s = Z.of_nat n) by lia.
    assert (Hn0 : n <> O) by lia.
    replace (Z.to_nat (size_ s - 1)) with (n - 1)%nat in Htail by lia.
    pose proof (cells_from_length _ _ _ _ Hnull) as Hlen.
    assert (Hne : cells_from (mem s) n (head s) <> []).
    { intros Heq. rewrite Heq in Hlen. simpl in Hlen. lia. }
    constructor.
    + done.
    + by rewrite (cells_from_first _ _ _ _ Hnull).
    + rewrite <- (last_ptr_drop _ nullptr nullptr Hne), Hlen.
      assert (Hlt : (n - 1 < length (cells_from (mem s) n (head s)))%nat) by lia.
      pose proof (ptr_at _ nullptr _ Hlt) as Hat.
      rewrite (cells_from_lookup _ _ _ _ _ Hnull) in Hat by lia.
      rewrite Htail in Hat. by injection Hat.
    + lia.
    + apply cells_from_dseg; [done| |].
      * intros _ nd Hnd. by apply Hfirst.
      * intros i a b nd Hi Ha Hb Hnd. apply (Hback i a b nd); [lia|done..].
    + apply NoDup_alt. intros i j p Hi Hj.
      pose proof (lookup_lt_Some _ _ _ Hi) as Hil.
      pose proof (lookup_lt_Some _ _ _ Hj) as Hjl.
      rewrite length_fmap, Hlen in Hil, Hjl.
      rewrite (cells_from_lookup _ _ _ _ i Hnull) in Hi by done.
      rewrite (cells_from_lookup _ _ _ _ j Hnull) in Hj by done.
      destruct (Nat.lt_trichotomy i j) as [Hlt|[Heq|Hgt]]; [|done|].
      * exfalso. apply (Hdist i j p); [done|lia|done|done].
      * exfalso. apply (Hdist j i p); [done|lia|done|done].
    + intros p Hp. apply Hvalid. by eapply cells_from_alloc.
    + apply set_eq. intros p. rewrite elem_of_dom, elem_of_list_to_set. split.
      * intros Hp. destruct (Hcover p Hp) as (i & Hi & Hw).
        apply list_elem_of_lookup. exists i.
        rewrite (cells_from_lookup _ _ _ _ _ Hnull); [done|lia].
      * intros Hp. by eapply cells_from_alloc.
Qed.

Lemma Inv_ex (s : List2D T) : Inv s -> exists cs, Repr s cs.
Proof. intros HI. exists (cells_of s). by apply Inv_Repr. Qed.

Lemma cells_from_dseg_id (h : gmap Z (Node T)) pp cs qn :
  dseg h pp cs qn -> cells_from h (length cs) (first_ptr cs qn) = cs.
Proof.
  revert pp. induction cs as [|[p v] cs IH]; intros pp Hl; [done|].
  destruct Hl as [Hp Hl]. simpl in *. rewrite Hp. simpl. f_equal.
  by apply (IH p).
Qed.

(** The cells that describe an object are the ones read off it. *)
Lemma Repr_cells_of (s : List2D T) cs : Repr s cs -> cells_of s = cs.
Proof.
  intros HR. unfold cells_of.
  rewrite (repr_size _ _ HR), (repr_head _ _ HR), Nat2Z.id.
  apply (cells_from_dseg_id _ nullptr), (repr_links _ _ HR).
Qed.

(** ** The member functions against the sequence of cells *)

Lemma remove_first_Some val (cs cs' : list (Z * T)) :
  remove_first val cs = Some cs' ->
  exists c1 p c2,
    cs = c1 ++ (p, val) :: c2 /\ (val ∉ c1.*2) /\ cs' = c1 ++ c2.
Proof.
  revert cs'. induction cs as [|[q w] cs IH]; intros cs' Hrm; [done|].
  simpl in Hrm. case_bool_decide as Hw.
  - injection Hrm as <-. subst w. exists [], q, cs. split; [done|].
    split; [apply not_elem_of_nil|done].
  - destruct (remove_first val cs) as [rest|] eqn:Hrest; [|done].
    injection Hrm as <-.
    destruct (IH rest eq_refl) as (c1 & p & c2 & -> & Hval & ->).
    exists ((q, w) :: c1), p, c2. split; [done|]. split; [|done].
    simpl. apply not_elem_of_cons. split; [by intros ->|done].
Qed.

Lemma remove_first_None val (cs : list (Z * T)) :
  remove_first val cs = None -> val ∉ cs.*2.
Proof.
  induction cs as [|[q w] cs IH]; intros Hrm; [apply not_elem_of_nil|].
  simpl in Hrm. case_bool_decide as Hw; [done|].
  destruct (remove_first val cs) as [rest|] eqn:Hrest; [done|].
  simpl. apply not_elem_of_cons. split; [by intros ->|by apply IH].
Qed.

Lemma remove_first_split val (c1 c2 : list (Z * T)) p :
  val ∉ c1.*2 -> remove_first val (c1 ++ (p, val) :: c2) = Some (c1 ++ c2).
Proof.
  induction c1 as [|[q w] c1 IH]; intros Hval; simpl.
  - by rewrite bool_decide_eq_true_2.
  - simpl in Hval. apply not_elem_of_cons in Hval as [Hw Hval].
    rewrite bool_decide_eq_false_2 by done. by rewrite IH.
Qed.

(** Each call does to the object what [model_step] does to its cells, given
    fuel for one more step than the list is long; with less fuel the only
    other outcome is running out of it. *)
Lemma run_model (s : List2D T) cs c :
  Repr s cs -> may_call s c ->
  exists s',
    Repr s' (model_step c cs).2 /\
    forall fuel,
      (run fuel c s = OutOfFuel \/ run fuel c s = to_outcome (model_step c cs).1 s') /\
      ((length cs < fuel)%nat -> run fuel c s = to_outcome (model_step c cs).1 s').
Proof.
  intros HR Hc. destruct c as [a v|a v| | | | |v| |]; simpl in *.
  - destruct (push_front_Repr s cs a v HR Hc) as (s' & Hrun & HR').
    exists s'. split; [done|]. intros fuel. unfold bind. rewrite Hrun. by split; [right|].
  - destruct (push_back_Repr s cs a v HR Hc) as (s' & Hrun & HR').
    exists s'. split; [done|]. intros fuel. unfold bind. rewrite Hrun. by split; [right|].
  - exists s. split; [done|]. intros fuel. unfold bind. rewrite (front_Repr s cs HR).
    destruct cs; by split; [right|].
  - exists s. split; [done|]. intros fuel. unfold bind. rewrite (back_Repr s cs HR).
    destruct (last cs); by split; [right|].
  - exists s. split; [done|]. intros fuel. unfold bind.
    rewrite (size_unlocked s (repr_unlocked _ _ HR)), (repr_size _ _ HR).
    by split; [right|].
  - exists s. split; [done|]. intros fuel. unfold bind.
    rewrite (empty_unlocked s (repr_unlocked _ _ HR)), (repr_size _ _ HR).
    by split; [right|].
  - destruct (remove_first v cs) as [cs'|] eqn:Hrm; simpl.
    + apply remove_first_Some in Hrm as (c1 & p & c2 & -> & Hval & ->).
      destruct (remove_found s c1 c2 p v HR Hval) as (s' & HR' & Hrun).
      exists s'. split; [done|]. intros fuel. unfold bind. rewrite Hrun.
      rewrite length_app. simpl.
      destruct (decide (length c1 < fuel)%nat); split; auto; intros; lia.
    + apply remove_first_None in Hrm.
      exists s. split; [done|]. intros fuel. unfold bind.
      rewrite (remove_missing s cs v fuel HR Hrm).
      destruct (decide (length cs < fuel)%nat); split; auto; intros; lia.
  - exists s. split; [done|]. intros fuel. unfold bind. rewrite (get_fwd_Repr s cs fuel HR).
    destruct (decide (length cs < fuel)%nat); split; auto; intros; lia.
  - exists s. split; [done|]. intros fuel. unfold bind. rewrite (get_bwd_Repr s cs fuel HR).
    destruct (decide (length cs < fuel)%nat); split; auto; intros; lia.
Qed.

Lemma final_state_to_outcome r (s : List2D T) : final_state (to_outcome r s) = Some s.
Proof. by destruct r. Qed.

Lemma run_final_Repr (s : List2D T) cs c fuel s' :
  Repr s cs -> may_call s c ->
  final_state (run fuel c s) = Some s' ->
  Repr s' (model_step c cs).2 /\
  run fuel c s = to_outcome (model_step c cs).1 s'.
Proof.
  intros HR Hc Hfin.
  destruct (run_model s cs c HR Hc) as (s'' & HR' & Hrun).
  destruct (Hrun fuel) as [[Hout|Hout] _]; rewrite Hout in Hfin |- *; [done|].
  rewrite final_state_to_outcome in Hfin. injection Hfin as <-. done.
Qed.

Lemma run_total (s : List2D T) cs c fuel :
  Repr s cs -> may_call s c -> (length cs < fuel)%nat ->
  exists s', final_state (run fuel c s) = Some s'.
Proof.
  intros HR Hc Hfuel.
  destruct (run_model s cs c HR Hc) as (s' & _ & Hrun).
  exists s'. destruct (Hrun fuel) as [_ Hr]. rewrite Hr by done.
  apply final_state_to_outcome.
Qed.

Lemma Repr_init : Repr (T := T) init [].
Proof.
  constructor; simpl.
  - done.
  - done.
  - done.
  - done.
  - done.
  - apply NoDup_nil_2.
  - intros p Hp. by apply elem_of_nil in Hp.
  - by rewrite dom_empty_L.
Qed.

Lemma reachable_Inv (s : List2D T) : reachable s -> Inv s.
Proof.
  induction 1 as [|s c fuel s' _ [cs HR]%Inv_ex Hc Hfin].
  - apply (Repr_Inv init []), Repr_init.
  - eapply Repr_Inv. by eapply run_final_Repr.
Qed.

Lemma logical_Repr (s : List2D T) cs :
  Repr s cs ->
  logical s = match cs with [] => StEmpty | _ :: _ => StPopulated end.
Proof.
  intros HR. unfold logical. rewrite (repr_size _ _ HR). by destruct cs.
Qed.

Lemma Repr_gone (s : List2D T) cs p : Repr s cs -> p ∉ cs.*1 -> mem s !! p = None.
Proof.
  intros HR Hp. apply not_elem_of_dom. rewrite (repr_owned _ _ HR).
  by rewrite elem_of_list_to_set.
Qed.

Lemma Repr_fresh (s : List2D T) cs a :
  Repr s cs -> a ∉ cs.*1 -> 0 < a <= SIZE_MAX -> fresh_ptr s a.
Proof. intros HR Ha Hrange. split; [done|]. by eapply Repr_gone. Qed.

(** ** The mutex in a single thread *)

(** A call on an object whose mutex is taken does not get past the lock. *)
Lemma run_Blocked (s : List2D T) c fuel :
  mutex_ s = true -> run fuel c s = Blocked.
Proof.
  intros Hm. destruct s as [h hd tl n b]. simpl in Hm. subst b.
  by destruct c.
Qed.

(** Whichever way a call ends, by a return or by an exception, the mutex is
    free afterwards. *)
Lemma run_unlocks (s : List2D T) c fuel s' :
  Inv s -> may_call s c ->
  final_state (run fuel c s) = Some s' -> mutex_ s' = false.
Proof.
  intros [cs HR]%Inv_ex Hc Hfin.
  destruct (run_final_Repr s cs c fuel s' HR Hc Hfin) as [HR' _].
  apply (repr_unlocked _ _ HR').
Qed.

(** Pushes that run one after the other, in whatever order, leave exactly
    the pushed cells behind the ones that were there. *)
Lemma serial_push_back_Repr (l : list (Z * T)) (s : List2D T) cs :
  Repr s cs ->
  NoDup (cs ++ l).*1 ->
  (forall a, a ∈ l.*1 -> 0 < a <= SIZE_MAX) ->
  exists s', serial_push_back l s = Returned tt s' /\ Repr s' (cs ++ l).
Proof.
  revert s cs. induction l as [|[a v] l IH]; intros s cs HR Hnd Hrange.
  - exists s. rewrite app_nil_r. done.
  - assert (Ha : fresh_ptr s a).
    { apply (Repr_fresh s cs a HR).
      - rewrite fmap_app in Hnd. apply NoDup_app in Hnd as (_ & Hdisj & _).
        intros Hin. apply (Hdisj _ Hin). simpl. apply elem_of_cons. by left.
      - apply Hrange. simpl. apply elem_of_cons. by left. }
    destruct (push_back_Repr s cs a v HR Ha) as (s1 & Hrun & HR1).
    destruct (IH s1 (cs ++ [(a, v)]) HR1) as (s' & Hrun' & HR').
    + by rewrite <- app_assoc.
    + intros b Hb. apply Hrange. simpl. apply elem_of_cons. by right.
    + exists s'. simpl. unfold bind. rewrite Hrun.
      split; [done|]. by rewrite <- app_assoc in HR'.
Qed.

(** X8. [push_back] calls that run one after the other, in any order of
    the same pairs, all return; afterwards [size()] is their number and the
    forward snapshot is a permutation of the pushed values. *)
Lemma serial_push_back_any_order (l l' : list (Z * T)) fuel :
  NoDup l.*1 ->
  (forall a, a ∈ l.*1 -> 0 < a <= SIZE_MAX) ->
  l' ≡ₚ l ->
  (length l < fuel)%nat ->
  exists s' vs,
    serial_push_back l' init = Returned tt s' /\
    size s' = Returned (Z.of_nat (length l)) s' /\
    get_fwd fuel s' = Returned vs s' /\
    vs ≡ₚ l.*2.
Proof.
  intros Hnd Hrange Hperm Hfuel.
  destruct (serial_push_back_Repr l' init [] Repr_init) as (s' & Hrun & HR').
  - simpl. by rewrite Hperm.
  - intros a Ha. apply Hrange. by rewrite <- Hperm.
  - simpl in HR'. exists s', l'.*2. split; [done|].
    pose proof (Permutation_length Hperm) as Hlen.
    rewrite (size_unlocked s' (repr_unlocked _ _ HR')), (repr_size _ _ HR').
    rewrite (get_fwd_Repr s' l' fuel HR'), Hlen.
    destruct (decide (length l < fuel)%nat); [|lia].
    split; [done|]. split; [done|]. by rewrite Hperm.
Qed.

(** ** The properties of the specification *)

(** C1. Every public operation preserves the structural invariants.  From
    an object that satisfies [Inv], whatever a call leaves behind, by
    returning or by throwing, satisfies [Inv] again: [head] is null iff
    [tail] is null iff the count is zero; the [next] chain from [head]
    reaches [tail] in count - 1 steps through pairwise distinct nodes, ends
    there and misses no node; and [prev] of every node is its predecessor.
    With fuel beyond the count the call does return or throw. *)
Theorem invariants_preserved (s : List2D T) c :
  Inv s -> may_call s c ->
  (forall fuel s', final_state (run fuel c s) = Some s' -> Inv s') /\
  (forall fuel,
     (Z.to_nat (size_ s) < fuel)%nat ->
     exists s', final_state (run fuel c s) = Some s').
Proof.
  intros [cs HR]%Inv_ex Hc. split.
  - intros fuel s' Hfin.
    destruct (run_final_Repr s cs c fuel s' HR Hc Hfin) as [HR' _].
    by eapply Repr_Inv.
  - intros fuel Hfuel. apply (run_total s cs c fuel HR Hc).
    rewrite (repr_size _ _ HR) in Hfuel. lia.
Qed.

(** C2. [remove(val)] on a list that stores [val] scans forward from [head]
    and takes out the first cell storing [val], and that cell only: the
    cells before it ([c1], none of which stores [val]) and after it ([c2])
    stay, in order, at their addresses and with their values; the list is
    re-linked around the gap, the count drops by one and the node is
    released.  The scan takes exactly one step per cell of [c1] and one
    more. *)
Theorem remove_first_match (s : List2D T) cs val :
  Repr s cs -> val ∈ cs.*2 ->
  exists c1 p c2 s',
    cs = c1 ++ (p, val) :: c2 /\
    (val ∉ c1.*2) /\
    Repr s' (c1 ++ c2) /\
    size_ s' = size_ s - 1 /\
    mem s' !! p = None /\
    forall fuel,
      remove fuel val s =
        if decide (length c1 < fuel)%nat then Returned tt s' else OutOfFuel.
Proof.
  intros HR Hin.
  destruct (remove_first val cs) as [cs'|] eqn:Hrm.
  2:{ by apply remove_first_None in Hrm. }
  apply remove_first_Some in Hrm as (c1 & p & c2 & -> & Hval & ->).
  destruct (remove_found s c1 c2 p val HR Hval) as (s' & HR' & Hrun).
  exists c1, p, c2, s'. split; [done|]. split; [done|]. split; [done|].
  split; [|split; [|done]].
  - rewrite (repr_size _ _ HR), (repr_size _ _ HR'), !length_app. simpl. lia.
  - apply (Repr_gone s' _ p HR').
    pose proof (repr_nodup _ _ HR) as Hnd.
    rewrite fmap_app in Hnd |- *. simpl in Hnd.
    apply NoDup_app in Hnd as (_ & Hdisj & Hnd).
    apply NoDup_cons in Hnd as [Hp2 _].
    apply not_elem_of_app. split; [|done].
    intros Hp1. apply (Hdisj _ Hp1). apply elem_of_cons. by left.
Qed.

(** C3. [remove(val)] on a list that does not store [val] throws
    [ElementNotFound], and the object it leaves is the one it was given:
    the heap of nodes, [head], [tail] and the count are all as before, so
    nothing was unlinked and both snapshots read as before. *)
Theorem remove_not_found (s : List2D T) cs val fuel :
  Repr s cs -> val ∉ cs.*2 -> (length cs < fuel)%nat ->
  remove fuel val s = Thrown ElementNotFound s /\
  get_fwd fuel s = Returned cs.*2 s /\
  get_bwd fuel s = Returned (rev cs.*2) s.
Proof.
  intros HR Hval Hfuel.
  rewrite (remove_missing s cs val fuel HR Hval).
  rewrite (get_fwd_Repr s cs fuel HR), (get_bwd_Repr s cs fuel HR).
  by destruct (decide (length cs < fuel)%nat).
Qed.

(** C4. [front()] throws [AcceessViolation] exactly when the count is zero;
    otherwise it returns the value stored in the node at [head] and leaves
    the object as it was.  The same holds for [back()] and [tail]. *)
Theorem front_back_access (s : List2D T) :
  Inv s ->
  (front s = Thrown AcceessViolation s <-> size_ s = 0) /\
  (size_ s <> 0 ->
   exists nd, mem s !! head s = Some nd /\ front s = Returned (value nd) s) /\
  (back s = Thrown AcceessViolation s <-> size_ s = 0) /\
  (size_ s <> 0 ->
   exists nd, mem s !! tail s = Some nd /\ back s = Returned (value nd) s).
Proof.
  intros [cs HR]%Inv_ex.
  rewrite (front_Repr s cs HR), (back_Repr s cs HR).
  rewrite (repr_size _ _ HR), (repr_head _ _ HR), (repr_tail _ _ HR).
  pose proof (repr_links _ _ HR) as Hl.
  split; [|split; [|split]].
  - destruct cs; simpl; split; intros H; try done; lia.
  - intros Hne. destruct cs as [|c cs]; [done|]. destruct Hl as [Hc _].
    eexists. split; [exact Hc|done].
  - destruct cs as [|c cs _] using rev_ind; [done|].
    rewrite last_snoc, length_app. simpl. split; intros H; try done; lia.
  - intros Hne. destruct cs as [|[p v] cs _] using rev_ind; [done|].
    apply dseg_snoc in Hl as [_ Hp].
    rewrite last_snoc, last_ptr_app. simpl.
    eexists. split; [exact Hp|done].
Qed.

(** C5. Both pushes always succeed.  After [push_back(v)], [back()] returns
    [v]; after [push_front(v)], [front()] returns [v]; either way the count
    has grown by exactly one and the list is well formed. *)
Theorem push_then_read (s : List2D T) a v :
  Inv s -> fresh_ptr s a ->
  (exists s',
     push_back a v s = Returned tt s' /\
     back s' = Returned v s' /\
     size_ s' = size_ s + 1 /\ Inv s') /\
  (exists s',
     push_front a v s = Returned tt s' /\
     front s' = Returned v s' /\
     size_ s' = size_ s + 1 /\ Inv s').
Proof.
  intros [cs HR]%Inv_ex Ha. split.
  - destruct (push_back_Repr s cs a v HR Ha) as (s' & Hrun & HR').
    exists s'. split; [done|]. split; [|split; [|by eapply Repr_Inv]].
    + rewrite (back_Repr s' _ HR'). by rewrite last_snoc.
    + rewrite (repr_size _ _ HR), (repr_size _ _ HR'), length_app. simpl. lia.
  - destruct (push_front_Repr s cs a v HR Ha) as (s' & Hrun & HR').
    exists s'. split; [done|]. split; [|split; [|by eapply Repr_Inv]].
    + by rewrite (front_Repr s' _ HR').
    + rewrite (repr_size _ _ HR), (repr_size _ _ HR'). simpl length. lia.
Qed.

(** C7. In every reachable state [empty()] and [size()] both return, leave
    the object as it was, and [empty()] is [true] exactly when [size()] is
    0. *)
Theorem empty_iff_size_zero (s : List2D T) :
  reachable s ->
  exists b n,
    empty s = Returned b s /\ size s = Returned n s /\ (b = true <-> n = 0).
Proof.
  intros Hreach. destruct (Inv_ex s (reachable_Inv s Hreach)) as [cs HR].
  exists (size_ s =? 0), (size_ s).
  rewrite (empty_unlocked s (repr_unlocked _ _ HR)).
  rewrite (size_unlocked s (repr_unlocked _ _ HR)).
  split; [done|]. split; [done|]. apply Z.eqb_eq.
Qed.

(** What a completed call does to the logical state. *)
Lemma logical_step (s : List2D T) c fuel s' :
  Inv s -> may_call s c ->
  final_state (run fuel c s) = Some s' ->
  (logical s = StEmpty ->
   (logical s' = StPopulated <-> is_push c = true)) /\
  (logical s = StPopulated ->
   (logical s' = StEmpty <->
    is_remove c = true /\ returned (run fuel c s) = true /\ size_ s = 1)) /\
  (~ (logical s = StEmpty /\ is_push c = true) ->
   ~ (is_remove c = true /\ returned (run fuel c s) = true /\ size_ s = 1) ->
   logical s' = logical s) /\
  (logical s' = StEmpty -> head s' = nullptr /\ tail s' = nullptr).
Proof.
  intros [cs HR]%Inv_ex Hc Hfin.
  destruct (run_final_Repr s cs c fuel s' HR Hc Hfin) as [HR' Hrun].
  rewrite Hrun.
  rewrite (logical_Repr s cs HR), (logical_Repr s' _ HR').
  rewrite (repr_size _ _ HR), (repr_head _ _ HR'), (repr_tail _ _ HR').
  clear Hrun Hfin HR HR' Hc.
  destruct c as [a v|a v| | | | |v| |]; simpl;
    try (destruct cs; simpl length; simpl;
         intuition (try discriminate; try congruence; lia)).
  destruct (remove_first v cs) as [cs'|] eqn:Hrm; simpl.
  - apply remove_first_Some in Hrm as (c1 & p & c2 & -> & _ & ->).
    destruct c1 as [|c c1]; [destruct c2 as [|c c2]|]; simpl;
      rewrite ?length_app; simpl length;
      intuition (try discriminate; try congruence; try lia).
  - destruct cs; simpl length; simpl;
      intuition (try discriminate; try congruence; lia).
Qed.

(** A push returns, whatever the fuel, and leaves a populated list. *)
Lemma push_populates (s : List2D T) c fuel :
  Inv s -> may_call s c -> is_push c = true ->
  exists s', run fuel c s = Returned RVoid s' /\ logical s' = StPopulated.
Proof.
  intros [cs HR]%Inv_ex Hc Hpush.
  destruct c as [a v|a v| | | | |v| |]; try discriminate; simpl in *.
  - destruct (push_front_Repr s cs a v HR Hc) as (s' & Hrun & HR').
    exists s'. unfold bind. rewrite Hrun. split; [done|].
    by rewrite (logical_Repr s' _ HR').
  - destruct (push_back_Repr s cs a v HR Hc) as (s' & Hrun & HR').
    exists s'. unfold bind. rewrite Hrun. split; [done|].
    rewrite (logical_Repr s' _ HR'). by destruct cs.
Qed.

(** Removing the only value of a list returns and leaves an empty list. *)
Lemma remove_last_empties (s : List2D T) v fuel :
  Inv s -> size_ s = 1 -> front s = Returned v s -> (0 < fuel)%nat ->
  exists s',
    run fuel (Remove v) s = Returned RVoid s' /\ logical s' = StEmpty.
Proof.
  intros [cs HR]%Inv_ex Hone Hfront Hfuel.
  rewrite (repr_size _ _ HR) in Hone.
  rewrite (front_Repr s cs HR) in Hfront.
  destruct cs as [|[p w] [|c cs]]; simpl length in Hone; try lia.
  injection Hfront as Hw. simpl in Hw. subst w.
  destruct (remove_found s [] [] p v HR) as (s' & HR' & Hrun).
  { apply not_elem_of_nil. }
  exists s'. simpl. unfold bind. rewrite Hrun. simpl.
  destruct (decide (0 < fuel)%nat); [|lia].
  split; [done|]. by rewrite (logical_Repr s' _ HR').
Qed.

(** C8. The two logical states.  Every call on a well-formed list
    completes.  A push always returns and leaves the list Populated, so
    from Empty it makes the transition to Populated, and from Empty a call
    leads to Populated exactly when it is a push.  Removing the only value
    of a list of count 1 returns and leaves it Empty, and from Populated a
    call leads to Empty exactly when it is a [remove] that returned on a
    list of count 1.  Every other call leaves the logical state as it was.
    In the Empty state [head] and [tail] are both null. *)
Theorem logical_state_transitions (s : List2D T) c :
  Inv s -> may_call s c ->
  (forall fuel,
     (Z.to_nat (size_ s) < fuel)%nat ->
     exists s', final_state (run fuel c s) = Some s') /\
  (is_push c = true ->
   forall fuel,
     exists s', run fuel c s = Returned RVoid s' /\ logical s' = StPopulated) /\
  (forall v fuel,
     c = Remove v -> size_ s = 1 -> front s = Returned v s ->
     (0 < fuel)%nat ->
     exists s', run fuel c s = Returned RVoid s' /\ logical s' = StEmpty) /\
  (forall fuel s',
     final_state (run fuel c s) = Some s' ->
     (logical s = StEmpty ->
      (logical s' = StPopulated <-> is_push c = true)) /\
     (logical s = StPopulated ->
      (logical s' = StEmpty <->
       is_remove c = true /\ returned (run fuel c s) = true /\ size_ s = 1)) /\
     (~ (logical s = StEmpty /\ is_push c = true) ->
      ~ (is_remove c = true /\ returned (run fuel c s) = true /\ size_ s = 1) ->
      logical s' = logical s) /\
     (logical s' = StEmpty -> head s' = nullptr /\ tail s' = nullptr)).
Proof.
  intros HI Hc. split; [|split; [|split]].
  - intros fuel Hfuel. destruct (Inv_ex s HI) as [cs HR].
    apply (run_total s cs c fuel HR Hc).
    rewrite (repr_size _ _ HR) in Hfuel. lia.
  - intros Hpush fuel. by apply push_populates.
  - intros v fuel -> Hone Hfront Hfuel. by apply remove_last_empties.
  - intros fuel s' Hfin. by apply logical_step.
Qed.

(** C10. In every reachable state the backward snapshot is the reverse of
    the forward snapshot, and both are as long as [size()] says. *)
Theorem bwd_is_reverse_of_fwd (s : List2D T) fuel :
  reachable s -> (Z.to_nat (size_ s) < fuel)%nat ->
  exists vs,
    get_fwd fuel s = Returned vs s /\
    get_bwd fuel s = Returned (rev vs) s /\
    size s = Returned (Z.of_nat (length vs)) s /\
    size s = Returned (Z.of_nat (length (rev vs))) s.
Proof.
  intros Hreach Hfuel. destruct (Inv_ex s (reachable_Inv s Hreach)) as [cs HR].
  rewrite (repr_size _ _ HR) in Hfuel.
  exists cs.*2.
  rewrite (get_fwd_Repr s cs fuel HR), (get_bwd_Repr s cs fuel HR).
  rewrite (size_unlocked s (repr_unlocked _ _ HR)), (repr_size _ _ HR).
  rewrite length_rev, length_fmap.
  destruct (decide (length cs < fuel)%nat); [done|lia].
Qed.


(** ** Beyond the specification: more about the same code *)

Lemma cells_split_at (cs : list (Z * T)) p :
  p ∈ cs.*1 -> exists c1 v c2, cs = c1 ++ (p, v) :: c2.
Proof.
  induction cs as [|[q w] cs IH]; simpl; intros Hp.
  - by apply elem_of_nil in Hp.
  - apply elem_of_cons in Hp as [->|Hp].
    + by exists [], w, cs.
    + destruct (IH Hp) as (c1 & v & c2 & ->).
      by exists ((q, w) :: c1), v, c2.
Qed.

(** The cells determine the object. *)
Lemma Repr_inj (s s' : List2D T) cs : Repr s cs -> Repr s' cs -> s = s'.
Proof.
  intros HR HR'.
  assert (Hmem : mem s = mem s').
  { apply map_eq. intros p. destruct (decide (p ∈ cs.*1)) as [Hp|Hp].
    - destruct (cells_split_at cs p Hp) as (c1 & v & c2 & ->).
      rewrite (dseg_lookup _ _ _ _ _ _ _ (repr_links _ _ HR)).
      by rewrite (dseg_lookup _ _ _ _ _ _ _ (repr_links _ _ HR')).
    - by rewrite (Repr_gone s cs p HR Hp), (Repr_gone s' cs p HR' Hp). }
  destruct HR as [Hm Hh Ht Hn _ _ _ _], HR' as [Hm' Hh' Ht' Hn' _ _ _ _].
  destruct s, s'; simpl in *. congruence.
Qed.

(** What a successful [get_fwd] tells about the cells. *)
Lemma get_fwd_Returned (s s0 : List2D T) cs fuel vs :
  Repr s cs -> get_fwd fuel s = Returned vs s0 ->
  vs = cs.*2 /\ (length cs < fuel)%nat.
Proof.
  intros HR Hg. rewrite (get_fwd_Repr s cs fuel HR) in Hg.
  destruct (decide (length cs < fuel)%nat); [|done].
  by injection Hg as <- _.
Qed.

Lemma dom_delete_list (h : gmap Z (Node T)) (ps : list Z) :
  dom (foldl (fun m p => delete p m) h ps) = dom h ∖ list_to_set ps.
Proof.
  revert h. induction ps as [|p ps IH]; intros h; simpl.
  - set_solver.
  - rewrite IH, dom_delete_L. set_solver.
Qed.

Lemma destructor_loop_spec (h : gmap Z (Node T)) cs pp tl n b fuel :
  dseg h pp cs nullptr ->
  NoDup cs.*1 ->
  (forall q, q ∈ cs.*1 -> q <> nullptr) ->
  destructor_loop fuel (mkList h (first_ptr cs nullptr) tl n b) =
    if decide (length cs < fuel)%nat
    then Returned tt
           (mkList (foldl (fun m p => delete p m) h cs.*1) nullptr tl n b)
    else OutOfFuel.
Proof.
  revert h pp fuel. induction cs as [|[p v] cs IH]; intros h pp fuel Hd Hnd Hnn.
  - destruct fuel as [|fuel]; simpl; [done|].
    destruct (decide (0 < S fuel)%nat); [done|lia].
  - destruct Hd as [Hp Hd]. simpl in Hp, Hd, Hnd.
    apply NoDup_cons in Hnd as [Hpcs Hnd].
    assert (Hp0 : (p =? nullptr) = false).
    { apply Z.eqb_neq, Hnn. simpl. apply elem_of_cons. by left. }
    destruct fuel as [|fuel].
    { simpl. destruct (decide (S (length cs) < 0)%nat); [lia|done]. }
    simpl. exec.
    rewrite (IH (delete p h) p fuel).
    + destruct (decide (length cs < fuel)%nat),
        (decide (S (length cs) < S fuel)%nat); try done; lia.
    + by apply dseg_delete_other.
    + done.
    + intros q Hq. apply Hnn. simpl. apply elem_of_cons. by right.
Qed.

Lemma first_addr_split val (c1 c2 : list (Z * T)) p :
  val ∉ c1.*2 -> first_addr val (c1 ++ (p, val) :: c2) = p.
Proof.
  induction c1 as [|[q w] c1 IH]; intros Hval; simpl.
  - by rewrite bool_decide_eq_true_2.
  - simpl in Hval. apply not_elem_of_cons in Hval as [Hw Hval].
    rewrite bool_decide_eq_false_2 by done. by apply IH.
Qed.

Lemma first_addr_missing val (cs : list (Z * T)) :
  val ∉ cs.*2 -> first_addr val cs = nullptr.
Proof.
  induction cs as [|[q w] cs IH]; intros Hval; simpl; [done|].
  simpl in Hval. apply not_elem_of_cons in Hval as [Hw Hval].
  rewrite bool_decide_eq_false_2 by done. by apply IH.
Qed.

Lemma serial_push_front_Repr (l : list (Z * T)) (s : List2D T) cs :
  Repr s cs ->
  NoDup (cs ++ l).*1 ->
  (forall a, a ∈ l.*1 -> 0 < a <= SIZE_MAX) ->
  exists s', serial_push_front l s = Returned tt s' /\ Repr s' (rev l ++ cs).
Proof.
  revert s cs. induction l as [|[a v] l IH]; intros s cs HR Hnd Hrange.
  - by exists s.
  - assert (Ha : fresh_ptr s a).
    { apply (Repr_fresh s cs a HR).
      - rewrite fmap_app in Hnd. apply NoDup_app in Hnd as (_ & Hdisj & _).
        intros Hin. apply (Hdisj _ Hin). simpl. apply elem_of_cons. by left.
      - apply Hrange. simpl. apply elem_of_cons. by left. }
    destruct (push_front_Repr s cs a v HR Ha) as (s1 & Hrun & HR1).
    destruct (IH s1 ((a, v) :: cs) HR1) as (s' & Hrun' & HR').
    + rewrite fmap_app in Hnd |- *. simpl in Hnd |- *.
      by rewrite Permutation_middle.
    + intros b Hb. apply Hrange. simpl. apply elem_of_cons. by right.
    + exists s'. simpl. unfold bind. rewrite Hrun.
      split; [done|]. by rewrite <- app_assoc.
Qed.

Lemma serial_remove_Repr (vs : list T) (s : List2D T) cs fuel :
  Repr s cs -> vs ≡ₚ cs.*2 -> (length cs < fuel)%nat ->
  exists s', serial_remove fuel vs s = Returned tt s' /\ Repr s' [].
Proof.
  revert s cs. induction vs as [|v vs IH]; intros s cs HR Hperm Hfuel.
  - symmetry in Hperm. apply Permutation_nil_r, fmap_nil_inv in Hperm.
    subst cs. by exists s.
  - assert (Hin : v ∈ cs.*2).
    { rewrite <- Hperm. apply elem_of_cons. by left. }
    destruct (remove_first v cs) as [cs'|] eqn:Hrm.
    2:{ by apply remove_first_None in Hrm. }
    apply remove_first_Some in Hrm as (c1 & p & c2 & -> & Hval & ->).
    destruct (remove_found s c1 c2 p v HR Hval) as (s1 & HR1 & Hrun).
    rewrite length_app in Hfuel. simpl in Hfuel.
    destruct (IH s1 (c1 ++ c2) HR1) as (s' & Hrun' & HR').
    + rewrite fmap_app in Hperm |- *. simpl in Hperm.
      by apply Permutation_cons_app_inv in Hperm.
    + rewrite length_app. lia.
    + exists s'. simpl. unfold bind. rewrite Hrun.
      destruct (decide (length c1 < fuel)%nat); [done|lia].
Qed.

(** X1. The destructor releases every node of a well-formed list, each one
    once and without touching a released one, and sets [head] to null; it
    leaves [tail] and the count as they were, and it does so whatever the
    state of the mutex, which it never takes. *)
Theorem destructor_frees_all (s : List2D T) (b : bool) (fuel : nat) :
  Inv s -> (Z.to_nat (size_ s) < fuel)%nat ->
  destructor fuel (with_mutex b s) =
    Returned tt (mkList ∅ nullptr (tail s) (size_ s) b).
Proof.
  intros [cs HR]%Inv_ex Hfuel.
  rewrite (repr_size _ _ HR) in Hfuel.
  pose proof (Repr_nonnull_all _ _ HR) as Hnn.
  unfold destructor, with_mutex, bind. rewrite (repr_head _ _ HR).
  rewrite (destructor_loop_spec _ cs nullptr _ _ _ _
             (repr_links _ _ HR) (repr_nodup _ _ HR) Hnn).
  destruct (decide (length cs < fuel)%nat); [|lia]. simpl.
  assert (Hempty : foldl (fun m p => delete p m) (mem s) cs.*1 = ∅).
  { apply dom_empty_inv_L.
    rewrite dom_delete_list, (repr_owned _ _ HR). set_solver. }
  by rewrite Hempty.
Qed.

(** X2. The private [find] returns the address of the first node, front to
    back, that stores [val], and null exactly when no node does; it leaves
    the object as it was and takes no lock, so it runs the same with the
    mutex held. *)
Theorem find_first_match (s : List2D T) (b : bool) (fuel : nat) (val : T) :
  Inv s -> (Z.to_nat (size_ s) < fuel)%nat ->
  find fuel val (with_mutex b s) =
    Returned (first_addr val (cells_of s)) (with_mutex b s) /\
  (first_addr val (cells_of s) = nullptr <-> val ∉ (cells_of s).*2) /\
  (first_addr val (cells_of s) <> nullptr ->
   exists c1 c2,
     cells_of s = c1 ++ (first_addr val (cells_of s), val) :: c2 /\
     (val ∉ c1.*2) /\
     exists nd,
       mem s !! first_addr val (cells_of s) = Some nd /\ value nd = val).
Proof.
  intros HI Hfuel. pose proof (Inv_Repr s HI) as HR.
  set (cs := cells_of s) in *.
  rewrite (repr_size _ _ HR) in Hfuel.
  pose proof (Repr_nonnull_all _ _ HR) as Hnn.
  pose proof (repr_links _ _ HR) as Hl.
  unfold find, with_mutex, bind, get_head. simpl. rewrite (repr_head _ _ HR).
  destruct (remove_first val cs) as [cs'|] eqn:Hrm.
  - apply remove_first_Some in Hrm as (c1 & p & c2 & Hcs & Hval & _).
    rewrite Hcs in Hl, Hnn, Hfuel |- *.
    rewrite (first_addr_split val c1 c2 p Hval).
    assert (Hp : p <> nullptr).
    { apply Hnn. rewrite fmap_app. apply elem_of_app. right.
      apply elem_of_cons. by left. }
    rewrite length_app in Hfuel. simpl in Hfuel.
    split; [|split].
    + rewrite (find_loop_found val _ nullptr c1 c2 p nullptr fuel); simpl.
      * destruct (decide (length c1 < fuel)%nat); [done|lia].
      * done.
      * intros q Hq. apply Hnn. rewrite fmap_app in Hq |- *. simpl in *.
        apply elem_of_app in Hq as [Hq|Hq]; apply elem_of_app; [by left|right].
        apply list_elem_of_singleton in Hq as ->. apply elem_of_cons. by left.
      * done.
    + split; [done|]. intros Hout. exfalso. apply Hout.
      rewrite fmap_app. apply elem_of_app. right. apply elem_of_cons. by left.
    + intros _. exists c1, c2. split; [done|]. split; [done|].
      eexists. split; [apply (dseg_lookup _ _ _ _ _ _ _ Hl)|done].
  - apply remove_first_None in Hrm.
    rewrite (first_addr_missing val cs Hrm).
    split; [|split].
    + rewrite (find_loop_missing val _ nullptr cs fuel); simpl; try done.
      destruct (decide (length cs < fuel)%nat); [done|lia].
    + done.
    + done.
Qed.

(** X3. [push_back(v)] appends: the forward snapshot afterwards is the one
    before followed by [v], and the backward snapshot is [v] followed by
    the one before. *)
Theorem push_back_appends (s : List2D T) a v fuel vs :
  Inv s -> fresh_ptr s a ->
  get_fwd fuel s = Returned vs s ->
  exists s',
    push_back a v s = Returned tt s' /\
    get_fwd (S fuel) s' = Returned (vs ++ [v]) s' /\
    get_bwd (S fuel) s' = Returned (v :: rev vs) s'.
Proof.
  intros [cs HR]%Inv_ex Ha Hg.
  destruct (get_fwd_Returned s s cs fuel vs HR Hg) as [-> Hfuel].
  destruct (push_back_Repr s cs a v HR Ha) as (s' & Hrun & HR').
  exists s'. split; [done|].
  rewrite (get_fwd_Repr s' _ (S fuel) HR'), (get_bwd_Repr s' _ (S fuel) HR').
  rewrite length_app, fmap_app, rev_app_distr. simpl.
  destruct (decide (length cs + 1 < S fuel)%nat); [done|lia].
Qed.

(** X4. [push_front(v)] prepends: the forward snapshot afterwards is [v]
    followed by the one before, and the backward snapshot is the one
    before followed by [v]. *)
Theorem push_front_prepends (s : List2D T) a v fuel vs :
  Inv s -> fresh_ptr s a ->
  get_fwd fuel s = Returned vs s ->
  exists s',
    push_front a v s = Returned tt s' /\
    get_fwd (S fuel) s' = Returned (v :: vs) s' /\
    get_bwd (S fuel) s' = Returned (rev vs ++ [v]) s'.
Proof.
  intros [cs HR]%Inv_ex Ha Hg.
  destruct (get_fwd_Returned s s cs fuel vs HR Hg) as [-> Hfuel].
  destruct (push_front_Repr s cs a v HR Ha) as (s' & Hrun & HR').
  exists s'. split; [done|].
  rewrite (get_fwd_Repr s' _ (S fuel) HR'), (get_bwd_Repr s' _ (S fuel) HR').
  simpl.
  destruct (decide (S (length cs) < S fuel)%nat); [done|lia].
Qed.

(** X5. [push_front(v)] followed by [remove(v)] gives back the very object
    it started from: the same nodes with the same links, the same [head],
    [tail] and count. *)
Theorem push_front_remove_roundtrip (s : List2D T) a v fuel :
  Inv s -> fresh_ptr s a -> (0 < fuel)%nat ->
  exists s',
    push_front a v s = Returned tt s' /\
    remove fuel v s' = Returned tt s.
Proof.
  intros [cs HR]%Inv_ex Ha Hfuel.
  destruct (push_front_Repr s cs a v HR Ha) as (s' & Hrun & HR').
  destruct (remove_found s' [] cs a v HR') as (s'' & HR'' & Hrm).
  { apply not_elem_of_nil. }
  exists s'. split; [done|]. rewrite Hrm. simpl.
  destruct (decide (0 < fuel)%nat); [|lia].
  by rewrite (Repr_inj s'' s cs HR'' HR).
Qed.

(** X6. [push_back(v)] followed by [remove(v)] gives back the very object
    it started from, provided the list did not store [v] already. *)
Theorem push_back_remove_roundtrip (s : List2D T) a v fuel vs :
  Inv s -> fresh_ptr s a ->
  get_fwd fuel s = Returned vs s -> v ∉ vs ->
  exists s',
    push_back a v s = Returned tt s' /\
    remove fuel v s' = Returned tt s.
Proof.
  intros [cs HR]%Inv_ex Ha Hg Hv.
  destruct (get_fwd_Returned s s cs fuel vs HR Hg) as [-> Hfuel].
  destruct (push_back_Repr s cs a v HR Ha) as (s' & Hrun & HR').
  destruct (remove_found s' cs [] a v HR' Hv) as (s'' & HR'' & Hrm).
  rewrite app_nil_r in HR''.
  exists s'. split; [done|]. rewrite Hrm.
  destruct (decide (length cs < fuel)%nat); [|lia].
  by rewrite (Repr_inj s'' s cs HR'' HR).
Qed.

(** X7. Removing every stored value once, in any order, empties the list:
    what is left is the object the constructor makes, with no node
    allocated. *)
Theorem remove_all_empties (s : List2D T) fuel ws vs :
  Inv s ->
  get_fwd fuel s = Returned ws s ->
  vs ≡ₚ ws ->
  serial_remove fuel vs s = Returned tt init.
Proof.
  intros [cs HR]%Inv_ex Hg Hperm.
  destruct (get_fwd_Returned s s cs fuel ws HR Hg) as [-> Hfuel].
  destruct (serial_remove_Repr vs s cs fuel HR Hperm Hfuel) as (s' & Hrun & HR').
  by rewrite Hrun, (Repr_inj s' init [] HR' Repr_init).
Qed.

(** X9. [push_front] calls that run one after the other build the list in
    reverse: the forward snapshot is the pushed values last to first, the
    backward snapshot is the values in the order pushed, and [size()] is
    their number. *)
Theorem serial_push_front_reverses (l : list (Z * T)) fuel :
  NoDup l.*1 ->
  (forall a, a ∈ l.*1 -> 0 < a <= SIZE_MAX) ->
  (length l < fuel)%nat ->
  exists s',
    serial_push_front l init = Returned tt s' /\
    get_fwd fuel s' = Returned (rev l.*2) s' /\
    get_bwd fuel s' = Returned l.*2 s' /\
    size s' = Returned (Z.of_nat (length l)) s'.
Proof.
  intros Hnd Hrange Hfuel.
  destruct (serial_push_front_Repr l init [] Repr_init Hnd Hrange)
    as (s' & Hrun & HR').
  rewrite app_nil_r in HR'.
  exists s'. split; [done|].
  rewrite (get_fwd_Repr s' _ fuel HR'), (get_bwd_Repr s' _ fuel HR').
  rewrite (size_unlocked s' (repr_unlocked _ _ HR')), (repr_size _ _ HR').
  rewrite length_rev.
  destruct (decide (length l < fuel)%nat); [|lia].
  assert (Hrev : (rev l).*2 = rev l.*2).
  { clear. induction l as [|c l IH]; simpl; [done|].
    by rewrite fmap_app, IH. }
  by rewrite Hrev, rev_involutive.
Qed.

(** X10. On a well-formed list no public call ever dereferences a null or
    dangling pointer, releases a node twice, or waits for the mutex,
    whatever fuel it is given. *)
Theorem run_never_undefined (s : List2D T) c fuel :
  Inv s -> may_call s c ->
  run fuel c s <> Undefined /\ run fuel c s <> Blocked.
Proof.
  intros [cs HR]%Inv_ex Hc.
  destruct (run_model s cs c HR Hc) as (s' & _ & Hrun).
  destruct (Hrun fuel) as [[Hout|Hout] _]; rewrite Hout.
  - done.
  - by destruct (model_step c cs).1.
Qed.

(** X11. Nothing leaks: in a well-formed list the number of allocated nodes
    is the count, so every reachable state has exactly [size()] nodes on
    the heap. *)
Theorem no_leak (s : List2D T) :
  reachable s -> Z.of_nat (base.size (mem s)) = size_ s.
Proof.
  intros [cs HR]%reachable_Inv%Inv_ex.
  rewrite (repr_size _ _ HR), <- size_dom, (repr_owned _ _ HR).
  rewrite size_list_to_set by apply (repr_nodup _ _ HR).
  by rewrite length_fmap.
Qed.

(** X12. The accessors agree with the snapshot: [front()] returns the first
    value of [get_fwd()] and [back()] its last, and both throw exactly when
    the snapshot is empty. *)
Theorem front_back_match_snapshot (s : List2D T) fuel vs :
  Inv s ->
  get_fwd fuel s = Returned vs s ->
  front s = match vs with
            | [] => Thrown AcceessViolation s
            | v :: _ => Returned v s
            end /\
  back s = match last vs with
           | None => Thrown AcceessViolation s
           | Some v => Returned v s
           end.
Proof.
  intros [cs HR]%Inv_ex Hg.
  destruct (get_fwd_Returned s s cs fuel vs HR Hg) as [-> _].
  rewrite (front_Repr s cs HR), (back_Repr s cs HR), fmap_last.
  split; [by destruct cs|by destruct (last cs)].
Qed.
End Proofs.

(** ** The examples are well-formed lists *)

Lemma example_one_Repr : Repr example_one [(16, 7)].
Proof. apply (bool_decide_unpack _). vm_compute. exact I. Qed.

Lemma example_list_Repr : Repr example_list example_cells.
Proof. apply (bool_decide_unpack _). vm_compute. exact I. Qed.

Lemma example_list_reachable : reachable example_list.
Proof.
  apply (reachable_call example_two (PushBack 48 9) 0).
  - apply (reachable_call example_one (PushBack 32 9) 0).
    + apply (reachable_call init (PushBack 16 7) 0).
      * apply reachable_init.
      * split; [vm_compute; intuition discriminate|reflexivity].
      * vm_compute. reflexivity.
    + split; [vm_compute; intuition discriminate|reflexivity].
    + vm_compute. reflexivity.
  - split; [vm_compute; intuition discriminate|reflexivity].
  - vm_compute. reflexivity.
Qed.

(** ** The test suite passes *)

Example test_create_passes :
  test_create init =
    Returned (true, 0, inr AcceessViolation, inr AcceessViolation) init.
Proof. vm_compute. reflexivity. Qed.

Example test_push_passes :
  exists s, test_push init = Returned [1; 2; 1; 3; 4; 4] s.
Proof. eexists. vm_compute. reflexivity. Qed.

Example test_remove_passes :
  exists s,
    test_remove init =
      Returned (inr ElementNotFound, [1; 2; 3; 4], [4; 3; 2; 1],
                [1; 2; 3], [3; 2; 1]) s.
Proof. eexists. vm_compute. reflexivity. Qed.

Example test_becomes_empty_passes :
  test_becomes_empty init =
    Returned (false, 3, true, 0, inr AcceessViolation, inr AcceessViolation)
             init.
Proof. vm_compute. reflexivity. Qed.

(** C6. Pushing 1, 2, 3, 4 at the back of an empty list, at whatever
    addresses the allocator hands out, gives the forward snapshot
    [1; 2; 3; 4] and the backward snapshot [4; 3; 2; 1]; removing 4 then
    gives [1; 2; 3] and [3; 2; 1]. *)
Theorem roundtrip_push_back_remove (a1 a2 a3 a4 : Z) (fuel : nat) :
  NoDup [a1; a2; a3; a4] ->
  Forall (fun a => 0 < a <= SIZE_MAX) [a1; a2; a3; a4] ->
  (4 < fuel)%nat ->
  exists s1 s2 s3 s4 s5 : List2D Z,
    push_back a1 1 init = Returned tt s1 /\
    push_back a2 2 s1 = Returned tt s2 /\
    push_back a3 3 s2 = Returned tt s3 /\
    push_back a4 4 s3 = Returned tt s4 /\
    get_fwd fuel s4 = Returned [1; 2; 3; 4] s4 /\
    get_bwd fuel s4 = Returned [4; 3; 2; 1] s4 /\
    remove fuel 4 s4 = Returned tt s5 /\
    get_fwd fuel s5 = Returned [1; 2; 3] s5 /\
    get_bwd fuel s5 = Returned [3; 2; 1] s5.
Proof.
  intros Hnd Hall Hfuel.
  rewrite !NoDup_cons, !not_elem_of_cons in Hnd.
  rewrite !Forall_cons in Hall.
  destruct Hall as (Hr1 & Hr2 & Hr3 & Hr4 & _).
  destruct Hnd as ((H12 & H13 & H14 & _) & (H23 & H24 & _) & (H34 & _) & _).
  destruct (push_back_Repr init [] a1 1 Repr_init) as (s1 & Hp1 & R1).
  { apply (Repr_fresh init [] a1 Repr_init); [apply not_elem_of_nil|done]. }
  destruct (push_back_Repr s1 _ a2 2 R1) as (s2 & Hp2 & R2).
  { apply (Repr_fresh s1 _ a2 R1); [|done]. simpl.
    repeat (apply not_elem_of_cons; split; [congruence|]). apply not_elem_of_nil. }
  destruct (push_back_Repr s2 _ a3 3 R2) as (s3 & Hp3 & R3).
  { apply (Repr_fresh s2 _ a3 R2); [|done]. simpl.
    repeat (apply not_elem_of_cons; split; [congruence|]). apply not_elem_of_nil. }
  destruct (push_back_Repr s3 _ a4 4 R3) as (s4 & Hp4 & R4).
  { apply (Repr_fresh s3 _ a4 R3); [|done]. simpl.
    repeat (apply not_elem_of_cons; split; [congruence|]). apply not_elem_of_nil. }
  simpl in R4.
  destruct (remove_found s4 [(a1, 1); (a2, 2); (a3, 3)] [] a4 4 R4) as (s5 & R5 & Hrm).
  { simpl. repeat (apply not_elem_of_cons; split; [lia|]). apply not_elem_of_nil. }
  simpl in R5.
  exists s1, s2, s3, s4, s5.
  rewrite Hp1, Hp2, Hp3, Hp4, Hrm.
  rewrite (get_fwd_Repr s4 _ fuel R4), (get_bwd_Repr s4 _ fuel R4).
  rewrite (get_fwd_Repr s5 _ fuel R5), (get_bwd_Repr s5 _ fuel R5).
  simpl.
  destruct (decide (4 < fuel)%nat); [|lia].
  destruct (decide (3 < fuel)%nat); [|lia].
  repeat split.
Qed.

(** ** The theorems at the examples *)

Lemma invariants_preserved_witness :
  Inv example_list /\
  may_call example_list (PushBack 64 5) /\
  (forall fuel s',
     final_state (run fuel (PushBack 64 5) example_list) = Some s' -> Inv s') /\
  (forall fuel,
     (Z.to_nat (size_ example_list) < fuel)%nat ->
     exists s', final_state (run fuel (PushBack 64 5) example_list) = Some s').
Proof.
  assert (HI : Inv example_list).
  { apply (Repr_Inv example_list example_cells).
    apply (bool_decide_unpack _). vm_compute. exact I. }
  assert (Hc : may_call example_list (PushBack 64 5)).
  { split; [unfold SIZE_MAX; lia|reflexivity]. }
  split; [exact HI|]. split; [exact Hc|].
  exact (invariants_preserved example_list (PushBack 64 5) HI Hc).
Defined.

Lemma remove_first_match_witness :
  Repr example_list example_cells /\
  9 ∈ example_cells.*2 /\
  exists c1 p c2 s',
    example_cells = c1 ++ (p, 9) :: c2 /\
    (9 ∉ c1.*2) /\
    Repr s' (c1 ++ c2) /\
    size_ s' = size_ example_list - 1 /\
    mem s' !! p = None /\
    forall fuel,
      remove fuel 9 example_list =
        if decide (length c1 < fuel)%nat then Returned tt s' else OutOfFuel.
Proof.
  assert (HR : Repr example_list example_cells).
  { apply (bool_decide_unpack _). vm_compute. exact I. }
  assert (Hin : 9 ∈ example_cells.*2).
  { apply (bool_decide_unpack _). vm_compute. exact I. }
  split; [exact HR|]. split; [exact Hin|].
  exact (remove_first_match example_list example_cells 9 HR Hin).
Defined.

Lemma remove_not_found_witness :
  Repr example_list example_cells /\
  (5 ∉ example_cells.*2) /\
  (length example_cells < 4)%nat /\
  remove 4 5 example_list = Thrown ElementNotFound example_list /\
  get_fwd 4 example_list = Returned example_cells.*2 example_list /\
  get_bwd 4 example_list = Returned (rev example_cells.*2) example_list.
Proof.
  assert (HR : Repr example_list example_cells).
  { apply (bool_decide_unpack _). vm_compute. exact I. }
  assert (Hout : 5 ∉ example_cells.*2).
  { apply (bool_decide_unpack _). vm_compute. exact I. }
  assert (Hfuel : (length example_cells < 4)%nat) by (simpl; lia).
  split; [exact HR|]. split; [exact Hout|]. split; [exact Hfuel|].
  exact (remove_not_found example_list example_cells 5 4 HR Hout Hfuel).
Defined.

Lemma front_back_access_witness :
  Inv example_list /\
  (front example_list = Thrown AcceessViolation example_list <->
   size_ example_list = 0) /\
  (size_ example_list <> 0 ->
   exists nd,
     mem example_list !! head example_list = Some nd /\
     front example_list = Returned (value nd) example_list) /\
  (back example_list = Thrown AcceessViolation example_list <->
   size_ example_list = 0) /\
  (size_ example_list <> 0 ->
   exists nd,
     mem example_list !! tail example_list = Some nd /\
     back example_list = Returned (value nd) example_list).
Proof.
  assert (HI : Inv example_list).
  { apply (Repr_Inv example_list example_cells).
    apply (bool_decide_unpack _). vm_compute. exact I. }
  split; [exact HI|].
  exact (front_back_access example_list HI).
Defined.

Lemma push_then_read_witness :
  Inv example_list /\
  fresh_ptr example_list 64 /\
  (exists s',
     push_back 64 5 example_list = Returned tt s' /\
     back s' = Returned 5 s' /\
     size_ s' = size_ example_list + 1 /\ Inv s') /\
  (exists s',
     push_front 64 5 example_list = Returned tt s' /\
     front s' = Returned 5 s' /\
     size_ s' = size_ example_list + 1 /\ Inv s').
Proof.
  assert (HI : Inv example_list).
  { apply (Repr_Inv example_list example_cells).
    apply (bool_decide_unpack _). vm_compute. exact I. }
  assert (Ha : fresh_ptr example_list 64).
  { split; [unfold SIZE_MAX; lia|reflexivity]. }
  split; [exact HI|]. split; [exact Ha|].
  exact (push_then_read example_list 64 5 HI Ha).
Defined.

Lemma roundtrip_push_back_remove_witness :
  NoDup [16; 32; 48; 64] /\
  Forall (fun a => 0 < a <= SIZE_MAX) [16; 32; 48; 64] /\
  (4 < 5)%nat /\
  exists s1 s2 s3 s4 s5 : List2D Z,
    push_back 16 1 init = Returned tt s1 /\
    push_back 32 2 s1 = Returned tt s2 /\
    push_back 48 3 s2 = Returned tt s3 /\
    push_back 64 4 s3 = Returned tt s4 /\
    get_fwd 5 s4 = Returned [1; 2; 3; 4] s4 /\
    get_bwd 5 s4 = Returned [4; 3; 2; 1] s4 /\
    remove 5 4 s4 = Returned tt s5 /\
    get_fwd 5 s5 = Returned [1; 2; 3] s5 /\
    get_bwd 5 s5 = Returned [3; 2; 1] s5.
Proof.
  assert (Hnd : NoDup [16; 32; 48; 64]).
  { apply (bool_decide_unpack _). vm_compute. exact I. }
  assert (Hall : Forall (fun a => 0 < a <= SIZE_MAX) [16; 32; 48; 64]).
  { repeat constructor; unfold SIZE_MAX; lia. }
  assert (Hfuel : (4 < 5)%nat) by lia.
  split; [exact Hnd|]. split; [exact Hall|]. split; [exact Hfuel|].
  exact (roundtrip_push_back_remove 16 32 48 64 5 Hnd Hall Hfuel).
Defined.

Lemma empty_iff_size_zero_witness :
  reachable example_list /\
  exists b n,
    empty example_list = Returned b example_list /\
    size example_list = Returned n example_list /\
    (b = true <-> n = 0).
Proof.
  split; [exact example_list_reachable|].
  exact (empty_iff_size_zero example_list example_list_reachable).
Defined.

Lemma logical_state_transitions_witness :
  Inv (T := Z) init /\
  may_call init (PushBack 16 7) /\
  (forall fuel,
     (Z.to_nat (size_ (T := Z) init) < fuel)%nat ->
     exists s', final_state (run fuel (PushBack 16 7) init) = Some s') /\
  (is_push (PushBack 16 7) = true ->
   forall fuel,
     exists s',
       run fuel (PushBack 16 7) init = Returned RVoid s' /\
       logical s' = StPopulated) /\
  (forall v fuel,
     PushBack 16 7 = Remove v -> size_ (T := Z) init = 1 ->
     front init = Returned v init ->
     (0 < fuel)%nat ->
     exists s',
       run fuel (PushBack 16 7) init = Returned RVoid s' /\
       logical s' = StEmpty) /\
  (forall fuel s',
     final_state (run fuel (PushBack 16 7) init) = Some s' ->
     (logical (T := Z) init = StEmpty ->
      (logical s' = StPopulated <-> is_push (PushBack 16 7) = true)) /\
     (logical (T := Z) init = StPopulated ->
      (logical s' = StEmpty <->
       is_remove (PushBack 16 7) = true /\
       returned (run fuel (PushBack 16 7) init) = true /\
       size_ (T := Z) init = 1)) /\
     (~ (logical (T := Z) init = StEmpty /\ is_push (PushBack 16 7) = true) ->
      ~ (is_remove (PushBack 16 7) = true /\
         returned (run fuel (PushBack 16 7) init) = true /\
         size_ (T := Z) init = 1) ->
      logical s' = logical (T := Z) init) /\
     (logical s' = StEmpty -> head s' = nullptr /\ tail s' = nullptr)).
Proof.
  assert (HI : Inv (T := Z) init).
  { apply (Repr_Inv init []).
    apply (bool_decide_unpack _). vm_compute. exact I. }
  assert (Hc : may_call (T := Z) init (PushBack 16 7)).
  { split; [unfold SIZE_MAX; lia|reflexivity]. }
  split; [exact HI|]. split; [exact Hc|].
  exact (logical_state_transitions init (PushBack 16 7) HI Hc).
Defined.

Lemma bwd_is_reverse_of_fwd_witness :
  reachable example_list /\
  (Z.to_nat (size_ example_list) < 4)%nat /\
  exists vs,
    get_fwd 4 example_list = Returned vs example_list /\
    get_bwd 4 example_list = Returned (rev vs) example_list /\
    size example_list = Returned (Z.of_nat (length vs)) example_list /\
    size example_list = Returned (Z.of_nat (length (rev vs))) example_list.
Proof.
  assert (Hfuel : (Z.to_nat (size_ example_list) < 4)%nat) by (simpl; lia).
  split; [exact example_list_reachable|]. split; [exact Hfuel|].
  exact (bwd_is_reverse_of_fwd example_list 4 example_list_reachable Hfuel).
Defined.

(** ** The further properties at the examples *)

Lemma destructor_frees_all_witness :
  Inv example_list /\
  (Z.to_nat (size_ example_list) < 4)%nat /\
  destructor 4 (with_mutex true example_list) =
    Returned tt (mkList ∅ nullptr (tail example_list) (size_ example_list) true).
Proof.
  assert (HI : Inv example_list).
  { apply (Repr_Inv example_list example_cells).
    apply (bool_decide_unpack _). vm_compute. exact I. }
  assert (Hfuel : (Z.to_nat (size_ example_list) < 4)%nat) by (simpl; lia).
  split; [exact HI|]. split; [exact Hfuel|].
  exact (destructor_frees_all example_list true 4 HI Hfuel).
Defined.

Lemma find_first_match_witness :
  Inv example_list /\
  (Z.to_nat (size_ example_list) < 4)%nat /\
  find 4 9 (with_mutex true example_list) =
    Returned (first_addr 9 (cells_of example_list))
             (with_mutex true example_list) /\
  (first_addr 9 (cells_of example_list) = nullptr <->
   9 ∉ (cells_of example_list).*2) /\
  (first_addr 9 (cells_of example_list) <> nullptr ->
   exists c1 c2,
     cells_of example_list =
       c1 ++ (first_addr 9 (cells_of example_list), 9) :: c2 /\
     (9 ∉ c1.*2) /\
     exists nd,
       mem example_list !! first_addr 9 (cells_of example_list) = Some nd /\
       value nd = 9).
Proof.
  assert (HI : Inv example_list).
  { apply (Repr_Inv example_list example_cells).
    apply (bool_decide_unpack _). vm_compute. exact I. }
  assert (Hfuel : (Z.to_nat (size_ example_list) < 4)%nat) by (simpl; lia).
  split; [exact HI|]. split; [exact Hfuel|].
  exact (find_first_match example_list true 4 9 HI Hfuel).
Defined.

Lemma push_back_appends_witness :
  Inv example_list /\
  fresh_ptr example_list 64 /\
  get_fwd 4 example_list = Returned [7; 9; 9] example_list /\
  exists s',
    push_back 64 5 example_list = Returned tt s' /\
    get_fwd 5 s' = Returned ([7; 9; 9] ++ [5]) s' /\
    get_bwd 5 s' = Returned (5 :: rev [7; 9; 9]) s'.
Proof.
  assert (HI : Inv example_list).
  { apply (Repr_Inv example_list example_cells).
    apply (bool_decide_unpack _). vm_compute. exact I. }
  assert (Ha : fresh_ptr example_list 64).
  { split; [unfold SIZE_MAX; lia|reflexivity]. }
  assert (Hg : get_fwd 4 example_list = Returned [7; 9; 9] example_list).
  { vm_compute. reflexivity. }
  split; [exact HI|]. split; [exact Ha|]. split; [exact Hg|].
  exact (push_back_appends example_list 64 5 4 [7; 9; 9] HI Ha Hg).
Defined.

Lemma push_front_prepends_witness :
  Inv example_list /\
  fresh_ptr example_list 64 /\
  get_fwd 4 example_list = Returned [7; 9; 9] example_list /\
  exists s',
    push_front 64 5 example_list = Returned tt s' /\
    get_fwd 5 s' = Returned (5 :: [7; 9; 9]) s' /\
    get_bwd 5 s' = Returned (rev [7; 9; 9] ++ [5]) s'.
Proof.
  assert (HI : Inv example_list).
  { apply (Repr_Inv example_list example_cells).
    apply (bool_decide_unpack _). vm_compute. exact I. }
  assert (Ha : fresh_ptr example_list 64).
  { split; [unfold SIZE_MAX; lia|reflexivity]. }
  assert (Hg : get_fwd 4 example_list = Returned [7; 9; 9] example_list).
  { vm_compute. reflexivity. }
  split; [exact HI|]. split; [exact Ha|]. split; [exact Hg|].
  exact (push_front_prepends example_list 64 5 4 [7; 9; 9] HI Ha Hg).
Defined.

Lemma push_front_remove_roundtrip_witness :
  Inv example_list /\
  fresh_ptr example_list 64 /\
  (0 < 1)%nat /\
  exists s',
    push_front 64 5 example_list = Returned tt s' /\
    remove 1 5 s' = Returned tt example_list.
Proof.
  assert (HI : Inv example_list).
  { apply (Repr_Inv example_list example_cells).
    apply (bool_decide_unpack _). vm_compute. exact I. }
  assert (Ha : fresh_ptr example_list 64).
  { split; [unfold SIZE_MAX; lia|reflexivity]. }
  assert (Hfuel : (0 < 1)%nat) by lia.
  split; [exact HI|]. split; [exact Ha|]. split; [exact Hfuel|].
  exact (push_front_remove_roundtrip example_list 64 5 1 HI Ha Hfuel).
Defined.

Lemma push_back_remove_roundtrip_witness :
  Inv example_list /\
  fresh_ptr example_list 64 /\
  get_fwd 4 example_list = Returned [7; 9; 9] example_list /\
  (5 ∉ [7; 9; 9]) /\
  exists s',
    push_back 64 5 example_list = Returned tt s' /\
    remove 4 5 s' = Returned tt example_list.
Proof.
  assert (HI : Inv example_list).
  { apply (Repr_Inv example_list example_cells).
    apply (bool_decide_unpack _). vm_compute. exact I. }
  assert (Ha : fresh_ptr example_list 64).
  { split; [unfold SIZE_MAX; lia|reflexivity]. }
  assert (Hg : get_fwd 4 example_list = Returned [7; 9; 9] example_list).
  { vm_compute. reflexivity. }
  assert (Hv : 5 ∉ [7; 9; 9]).
  { apply (bool_decide_unpack _). vm_compute. exact I. }
  split; [exact HI|]. split; [exact Ha|]. split; [exact Hg|]. split; [exact Hv|].
  exact (push_back_remove_roundtrip example_list 64 5 4 [7; 9; 9] HI Ha Hg Hv).
Defined.

Lemma remove_all_empties_witness :
  Inv example_list /\
  get_fwd 4 example_list = Returned [7; 9; 9] example_list /\
  [9; 7; 9] ≡ₚ [7; 9; 9] /\
  serial_remove 4 [9; 7; 9] example_list = Returned tt init.
Proof.
  assert (HI : Inv example_list).
  { apply (Repr_Inv example_list example_cells).
    apply (bool_decide_unpack _). vm_compute. exact I. }
  assert (Hg : get_fwd 4 example_list = Returned [7; 9; 9] example_list).
  { vm_compute. reflexivity. }
  assert (Hperm : [9; 7; 9] ≡ₚ [7; 9; 9]) by apply perm_swap.
  split; [exact HI|]. split; [exact Hg|]. split; [exact Hperm|].
  exact (remove_all_empties example_list 4 [7; 9; 9] [9; 7; 9] HI Hg Hperm).
Defined.

Lemma serial_push_back_any_order_witness :
  NoDup [(16, 1); (32, 2)].*1 /\
  (forall a, a ∈ [(16, 1); (32, 2)].*1 -> 0 < a <= SIZE_MAX) /\
  [(32, 2); (16, 1)] ≡ₚ [(16, 1); (32, 2)] /\
  (length [(16, 1); (32, 2)] < 3)%nat /\
  exists (s' : List2D Z) vs,
    serial_push_back [(32, 2); (16, 1)] init = Returned tt s' /\
    size s' = Returned (Z.of_nat (length [(16, 1); (32, 2)])) s' /\
    get_fwd 3 s' = Returned vs s' /\
    vs ≡ₚ [(16, 1); (32, 2)].*2.
Proof.
  assert (Hnd : NoDup [(16, 1); (32, 2)].*1).
  { apply (bool_decide_unpack _). vm_compute. exact I. }
  assert (Hrange : forall a, a ∈ [(16, 1); (32, 2)].*1 -> 0 < a <= SIZE_MAX).
  { apply Forall_forall. repeat constructor; unfold SIZE_MAX; simpl; lia. }
  assert (Hperm : [(32, 2); (16, 1)] ≡ₚ [(16, 1); (32, 2)]) by apply perm_swap.
  assert (Hfuel : (length [(16, 1); (32, 2)] < 3)%nat) by (simpl; lia).
  split; [exact Hnd|]. split; [exact Hrange|]. split; [exact Hperm|].
  split; [exact Hfuel|].
  exact (serial_push_back_any_order [(16, 1); (32, 2)] [(32, 2); (16, 1)] 3
           Hnd Hrange Hperm Hfuel).
Defined.

Lemma serial_push_front_reverses_witness :
  NoDup [(16, 1); (32, 2)].*1 /\
  (forall a, a ∈ [(16, 1); (32, 2)].*1 -> 0 < a <= SIZE_MAX) /\
  (length [(16, 1); (32, 2)] < 3)%nat /\
  exists s' : List2D Z,
    serial_push_front [(16, 1); (32, 2)] init = Returned tt s' /\
    get_fwd 3 s' = Returned (rev [(16, 1); (32, 2)].*2) s' /\
    get_bwd 3 s' = Returned [(16, 1); (32, 2)].*2 s' /\
    size s' = Returned (Z.of_nat (length [(16, 1); (32, 2)])) s'.
Proof.
  assert (Hnd : NoDup [(16, 1); (32, 2)].*1).
  { apply (bool_decide_unpack _). vm_compute. exact I. }
  assert (Hrange : forall a, a ∈ [(16, 1); (32, 2)].*1 -> 0 < a <= SIZE_MAX).
  { apply Forall_forall. repeat constructor; unfold SIZE_MAX; simpl; lia. }
  assert (Hfuel : (length [(16, 1); (32, 2)] < 3)%nat) by (simpl; lia).
  split; [exact Hnd|]. split; [exact Hrange|]. split; [exact Hfuel|].
  exact (serial_push_front_reverses [(16, 1); (32, 2)] 3 Hnd Hrange Hfuel).
Defined.

Lemma run_never_undefined_witness :
  Inv example_list /\
  may_call example_list (Remove 9) /\
  run 4 (Remove 9) example_list <> Undefined /\
  run 4 (Remove 9) example_list <> Blocked.
Proof.
  assert (HI : Inv example_list).
  { apply (Repr_Inv example_list example_cells).
    apply (bool_decide_unpack _). vm_compute. exact I. }
  assert (Hc : may_call example_list (Remove 9)) by exact I.
  split; [exact HI|]. split; [exact Hc|].
  exact (run_never_undefined example_list (Remove 9) 4 HI Hc).
Defined.

Lemma no_leak_witness :
  reachable example_list /\
  Z.of_nat (base.size (mem example_list)) = size_ example_list.
Proof.
  split; [exact example_list_reachable|].
  exact (no_leak example_list example_list_reachable).
Defined.

Lemma front_back_match_snapshot_witness :
  Inv example_list /\
  get_fwd 4 example_list = Returned [7; 9; 9] example_list /\
  front example_list = Returned 7 example_list /\
  back example_list = Returned 9 example_list.
Proof.
  assert (HI : Inv example_list).
  { apply (Repr_Inv example_list example_cells).
    apply (bool_decide_unpack _). vm_compute. exact I. }
  assert (Hg : get_fwd 4 example_list = Returned [7; 9; 9] example_list).
  { vm_compute. reflexivity. }
  split; [exact HI|]. split; [exact Hg|].
  exact (front_back_match_snapshot example_list 4 [7; 9; 9] HI Hg).
Defined.

End ThreadSafeList2D.
